(** * LetterboxdPlexWatchlistSync: the reconciliation engine

    A shallow embedding of [letterboxd_plex_watchlist_sync.py] and the
    properties of its identifier extractor, item classifier, reconciliation
    scheduler, convergence driver and orchestrator. *)

From Stdlib Require Import String Ascii List Bool Arith Lia Permutation.
From Stdlib Require Import DecimalString.
Import ListNotations.
Open Scope string_scope.
Open Scope list_scope.

(** ** Exceptions and results *)

(** The exceptions the program can see.  [SystemExit] is what [sys.exit]
    raises; [RequestError] stands for the two classes caught by
    [fetch_with_retry] ([requests.RequestException] and [ValueError]);
    [IndexError] is what an out-of-range subscript raises; [RemoteError] is
    any exception raised by a call to the media server. *)
Inductive exn : Type :=
| SystemExit (code : nat)
| RequestError (msg : string)
| IndexError
| RemoteError (msg : string).

Inductive result (A : Type) : Type :=
| Ok (a : A)
| Raise (e : exn).

Arguments Ok {A} a.
Arguments Raise {A} e.

Definition rbind {A B : Type} (r : result A) (k : A -> result B) : result B :=
  match r with
  | Ok a => k a
  | Raise e => Raise e
  end.

(** ** Python string operations used by the program *)

Module PyStr.

(** [needle in s]: some suffix of [s] starts with [needle]. *)
Fixpoint contains (needle s : string) : bool :=
  if prefix needle s then true
  else match s with
       | EmptyString => false
       | String _ s' => contains needle s'
       end.

(** [s.split(sep)] for a non-empty [sep], scanning left to right.  [skip]
    counts the characters of a separator that has just been recognised and
    is still to be passed over; [cur] is the piece being collected. *)
Fixpoint split_go (sep : string) (skip : nat) (cur s : string) : list string :=
  match s with
  | EmptyString => [cur]
  | String c s' =>
      match skip with
      | S k => split_go sep k cur s'
      | O =>
          if prefix sep s
          then cur :: split_go sep (String.length sep - 1) EmptyString s'
          else split_go sep O (cur ++ String c EmptyString) s'
      end
  end.

Definition split (s sep : string) : list string := split_go sep 0 EmptyString s.

(** [l[i]] for a non-negative [i]. *)
Definition subscript {A : Type} (l : list A) (i : nat) : result A :=
  match nth_error l i with
  | Some a => Ok a
  | None => Raise IndexError
  end.

(** Truthiness of a string: the empty string is false. *)
Definition truthy (s : string) : bool :=
  match s with
  | EmptyString => false
  | String _ _ => true
  end.

End PyStr.

(** ** Identifier extractor *)

(** The argument is [str(guid)], the text of the identifier object. *)
Definition get_imdb_id_from_guid (guid : string) : result (option string) :=
  if PyStr.contains "imdb://" guid then
    rbind (PyStr.subscript (PyStr.split guid "://") 1) (fun rest =>
    rbind (PyStr.subscript (PyStr.split rest ">") 0) (fun id =>
    Ok (Some id)))
  else Ok None.

(** ** Data model *)

(** One record of the Letterboxd watchlist or watched list: a JSON object
    read through [movie["title"]] and [movie["imdb_id"]]. *)
Record Movie : Type := { title : string; imdb_id : string }.

(** A Plex object: an item of the Plex watchlist or a Discover search
    result.  [guids] holds [str(guid)] for each of its identifiers. *)
Record Item : Type := { item_title : string; guids : list string }.

(** The triple returned by [process_single_watchlist_item]:
    [("remove", imdb_id, item)], [("present", imdb_id, None)] or
    [("add", None, item)]. *)
Inductive outcome : Type :=
| Remove (id : string) (item : Item)
| Present (id : string)
| Add (item : Item).

(** [any(imdb_id == m["imdb_id"] for m in movies)], the scan both inner
    loops of the classifier perform. *)
Definition id_listed (id : string) (movies : list Movie) : bool :=
  existsb (fun m => String.eqb id (imdb_id m)) movies.

(** ** The outside world *)

(** What the program does to the outside, in the order it does it: calls to
    the Plex account, HTTP requests and lines printed. *)
Inductive event : Type :=
| EvAccount (token : string)
| EvWatchlist
| EvGet (url : string)
| EvRemove (items : list Item)
| EvSearch (query : string)
| EvAdd (candidate : Item)
| EvPrint (line : string)
| EvStderr (line : string).

Definition trace : Type := list event.

(** The collaborators.  Each answer may depend on everything that happened
    before the call; a call either returns or raises. *)
Record World : Type := {
  getenv : string -> option string;
  MyPlexAccount : trace -> string -> result unit;
  watchlist : trace -> result (list Item);
  requests_get_json : trace -> string -> result (list Movie);
  removeFromWatchlist : trace -> list Item -> result unit;
  searchDiscover : trace -> string -> result (list Item);
  addToWatchlist : trace -> Item -> result unit
}.

(** A computation reads the trace so far and returns the trace extended by
    what it did, with its value or the exception that ended it. *)
Definition M (A : Type) : Type := trace -> trace * result A.

Definition ret {A : Type} (a : A) : M A := fun tr => (tr, Ok a).

Definition bind {A B : Type} (m : M A) (k : A -> M B) : M B :=
  fun tr =>
    match m tr with
    | (tr', Ok a) => k a tr'
    | (tr', Raise e) => (tr', Raise e)
    end.

Definition raise {A : Type} (e : exn) : M A := fun tr => (tr, Raise e).

Definition lift {A : Type} (r : result A) : M A := fun tr => (tr, r).

(** A call is recorded whether it returns or raises. *)
Definition call {A : Type} (ev : event) (answer : trace -> result A) : M A :=
  fun tr => (tr ++ [ev], answer tr).

Definition print (line : string) : M unit := fun tr => (tr ++ [EvPrint line], Ok tt).

Definition eprint (line : string) : M unit := fun tr => (tr ++ [EvStderr line], Ok tt).

Declare Scope prog_scope.
Delimit Scope prog_scope with prog.
Notation "x <- m ;; k" := (bind m (fun x => k))
  (at level 100, m at next level, right associativity) : prog_scope.
Notation "m ;;; k" := (bind m (fun _ => k))
  (at level 100, right associativity) : prog_scope.
Open Scope prog_scope.

Definition str_of_nat (n : nat) : string := NilEmpty.string_of_uint (Nat.to_uint n).

Definition newline : string := String (ascii_of_nat 10) EmptyString.

(** The line a worker prints when it finds its item watched. *)
Definition watched_line (item : Item) : string :=
  "Movie " ++ item_title item ++ " already watched. Adding to delete list".

(** The lines the convergence driver and the final report print. *)
Definition searching_line (movie : Movie) : string :=
  "Searching for.. " ++ title movie.

Definition adding_line (movie : Movie) : string :=
  " - Adding " ++ title movie ++ " to Plex watchlist".

Definition not_found_line (movie : Movie) : string :=
  " - Could not find " ++ title movie ++ " (IMDB ID: " ++ imdb_id movie
  ++ ") in Plex Discover".

Definition report_header : string :=
  newline ++ "The following movies could not be synced:".

Definition report_line (movie : Movie) : string :=
  "- " ++ title movie ++ " (IMDB ID: " ++ imdb_id movie ++ ")".

(** ** Item classifier *)

(** The loop over [watchlist_item.guids]; [found_already] is the local flag
    of the source, which is never set after its initialisation. *)
Fixpoint scan_item_guids (gs : list string) (found_already : bool)
    (watchlist_item : Item) (letterboxd_watchlist letterboxd_watched : list Movie)
    : M outcome :=
  match gs with
  | [] => ret (Add watchlist_item)
  | guid :: gs' =>
      extracted <- lift (get_imdb_id_from_guid guid) ;;
      let continue :=
        scan_item_guids gs' found_already watchlist_item
          letterboxd_watchlist letterboxd_watched in
      match extracted with
      | None => continue
      | Some id =>
          if negb (PyStr.truthy id) then continue
          else if id_listed id letterboxd_watched
          then
            print (watched_line watchlist_item) ;;;
            ret (Remove id watchlist_item)
          else if negb found_already && id_listed id letterboxd_watchlist
          then ret (Present id)
          else continue
      end
  end.

Definition process_single_watchlist_item (watchlist_item : Item)
    (letterboxd_watchlist letterboxd_watched : list Movie) : M outcome :=
  let found_already := false in
  scan_item_guids (guids watchlist_item) found_already watchlist_item
    letterboxd_watchlist letterboxd_watched.

(** ** Reconciliation scheduler *)

(** The three lists built by [process_watchlist_items]. *)
Record buckets : Type := {
  movies_to_remove : list Item;
  already_present : list string;
  movies_to_add_to_letterboxd : list Item
}.

Definition empty_buckets : buckets :=
  {| movies_to_remove := []; already_present := [];
     movies_to_add_to_letterboxd := [] |}.

(** One iteration of the loop over completed futures. *)
Definition route (b : buckets) (o : outcome) : buckets :=
  match o with
  | Remove _ item =>
      {| movies_to_remove := movies_to_remove b ++ [item];
         already_present := already_present b;
         movies_to_add_to_letterboxd := movies_to_add_to_letterboxd b |}
  | Present id =>
      {| movies_to_remove := movies_to_remove b;
         already_present := already_present b ++ [id];
         movies_to_add_to_letterboxd := movies_to_add_to_letterboxd b |}
  | Add item =>
      {| movies_to_remove := movies_to_remove b;
         already_present := already_present b;
         movies_to_add_to_letterboxd := movies_to_add_to_letterboxd b ++ [item] |}
  end.

(** [for future in as_completed(...)]: [future.result()] re-raises what the
    task raised, which ends the loop. *)
Fixpoint collect (futures : list (result outcome)) (b : buckets) : result buckets :=
  match futures with
  | [] => Ok b
  | future :: rest => rbind future (fun o => collect rest (route b o))
  end.

(** The thread pool decides two orders: the order in which the workers come
    to write their lines to the standard output, and the order in which
    [as_completed] hands the futures back.  A schedule maps the submitted
    items to such an order; it is fair when it yields every submitted task
    exactly once. *)
Definition schedule : Type := list Item -> list Item.

Definition fair (order : schedule) : Prop :=
  forall items, Permutation items (order items).

(** What one task writes and what its future holds. *)
Definition task_output (item : Item)
    (letterboxd_watchlist letterboxd_watched : list Movie) : trace :=
  fst (process_single_watchlist_item item letterboxd_watchlist letterboxd_watched []).

Definition task_result (item : Item)
    (letterboxd_watchlist letterboxd_watched : list Movie) : result outcome :=
  snd (process_single_watchlist_item item letterboxd_watchlist letterboxd_watched []).

(** All tasks are submitted and have run when the pool is left: the lines
    of the workers are on the output, in the order [workers], and the buckets
    are filled in the order [as_completed]. *)
Definition process_watchlist_items (workers as_completed : schedule)
    (current_items : list Item)
    (letterboxd_watchlist letterboxd_watched : list Movie) : M buckets :=
  fun tr =>
    (tr ++ flat_map (fun item =>
                       task_output item letterboxd_watchlist letterboxd_watched)
                    (workers current_items),
     collect
       (map (fun item => task_result item letterboxd_watchlist letterboxd_watched)
            (as_completed current_items))
       empty_buckets).

Definition submission_order : schedule := fun items => items.
Definition reverse_order : schedule := fun items => rev items.

Section Program.

Variable w : World.

(** ** Configuration and fetching *)

Definition falsy (v : option string) : bool :=
  match v with
  | None => true
  | Some s => negb (PyStr.truthy s)
  end.

Fixpoint print_missing (names : list string) : M unit :=
  match names with
  | [] => ret tt
  | var_name :: rest => eprint ("- " ++ var_name) ;;; print_missing rest
  end.

Definition get_environment_variables : M (string * string * string) :=
  let plex_token := getenv w "PLEX_TOKEN" in
  let plex_url := getenv w "PLEX_URL" in
  let letterboxd_username := getenv w "LETTERBOXD_USERNAME" in
  let required_vars :=
    [("PLEX_TOKEN", plex_token); ("PLEX_URL", plex_url);
     ("LETTERBOXD_USERNAME", letterboxd_username)] in
  let missing_vars := map fst (filter (fun kv => falsy (snd kv)) required_vars) in
  match missing_vars, plex_token, plex_url, letterboxd_username with
  | [], Some t, Some u, Some n => ret (t, u, n)
  | _, _, _, _ =>
      eprint "Error: Missing required environment variables:" ;;;
      print_missing missing_vars ;;;
      eprint (newline ++ "Please set these variables in your .env file") ;;;
      raise (SystemExit 1)
  end.

Definition max_retries : nat := 3.

(** [fetch_with_retry] from attempt [attempt] on, with [remaining] further
    attempts allowed after this one ([attempt < max_retries - 1] exactly
    when [remaining] is positive). *)
Fixpoint fetch_attempt (url : string) (attempt remaining : nat) : M (list Movie) :=
  fun tr =>
    match requests_get_json w tr url with
    | Ok data => (tr ++ [EvGet url], Ok data)
    | Raise (RequestError msg) =>
        match remaining with
        | S remaining' =>
            (print ("Attempt " ++ str_of_nat (attempt + 1)
                    ++ " failed. Retrying... Error: " ++ msg) ;;;
             fetch_attempt url (attempt + 1) remaining') (tr ++ [EvGet url])
        | O =>
            (print ("Failed after " ++ str_of_nat max_retries
                    ++ " attempts. Error: " ++ msg) ;;;
             raise (SystemExit 1)) (tr ++ [EvGet url])
        end
    | Raise e => (tr ++ [EvGet url], Raise e)
    end.

Definition fetch_with_retry (url : string) : M (list Movie) :=
  fetch_attempt url 0 (max_retries - 1).

Definition get_letterboxd_data (username : string) : M (list Movie * list Movie) :=
  print "Get Watchlist and Watched Films info from Letterboxd" ;;;
  print "Warning: The following API calls may take some time to complete." ;;;
  watchlist_data <- fetch_with_retry
    ("https://letterboxd-list-radarr.onrender.com/" ++ username ++ "/watchlist/") ;;
  watched <- fetch_with_retry
    ("https://letterboxd-list-radarr.onrender.com/" ++ username ++ "/films/") ;;
  print "Got Watchlist and Watched Films info from Letterboxd" ;;;
  ret (watchlist_data, watched).

(** ** Convergence driver *)

(** The loop over [discover_result.guids]: whether some identifier yields a
    non-empty id equal to the record's. *)
Fixpoint scan_result_guids (gs : list string) (movie : Movie) : result bool :=
  match gs with
  | [] => Ok false
  | guid :: gs' =>
      rbind (get_imdb_id_from_guid guid) (fun extracted =>
        match extracted with
        | Some id =>
            if PyStr.truthy id && String.eqb id (imdb_id movie)
            then Ok true
            else scan_result_guids gs' movie
        | None => scan_result_guids gs' movie
        end)
  end.

(** The loop over [discover_results]; its value is the flag [found]. *)
Fixpoint scan_discover_results (discover_results : list Item) (movie : Movie) : M bool :=
  match discover_results with
  | [] => ret false
  | discover_result :: rest =>
      hit <- lift (scan_result_guids (guids discover_result) movie) ;;
      if hit then
        print (adding_line movie) ;;;
        call (EvAdd discover_result) (fun tr => addToWatchlist w tr discover_result) ;;;
        ret true
      else scan_discover_results rest movie
  end.

(** [x in already_present] on a list of strings. *)
Definition py_in (x : string) (l : list string) : bool :=
  existsb (String.eqb x) l.

(** The loop over [letterboxd_watchlist], with the list [unsynced_movies]
    built so far. *)
Fixpoint sync_loop (movies : list Movie) (present : list string)
    (unsynced_movies : list Movie) : M (list Movie) :=
  match movies with
  | [] => ret unsynced_movies
  | movie :: rest =>
      if py_in (imdb_id movie) present then sync_loop rest present unsynced_movies
      else
        discover_results <-
          call (EvSearch (title movie)) (fun tr => searchDiscover w tr (title movie)) ;;
        print (searching_line movie) ;;;
        found <- scan_discover_results discover_results movie ;;
        if found then sync_loop rest present unsynced_movies
        else
          print (not_found_line movie) ;;;
          sync_loop rest present (unsynced_movies ++ [movie])
  end.

Definition sync_watchlist (letterboxd_watchlist : list Movie)
    (present : list string) : M (list Movie) :=
  sync_loop letterboxd_watchlist present [].

(** ** Orchestrator *)

Fixpoint report_lines (unsynced_movies : list Movie) : M unit :=
  match unsynced_movies with
  | [] => ret tt
  | movie :: rest =>
      print (report_line movie) ;;;
      report_lines rest
  end.

Definition report (unsynced_movies : list Movie) : M unit :=
  match unsynced_movies with
  | [] => ret tt
  | _ :: _ =>
      print report_header ;;;
      report_lines unsynced_movies ;;;
      print (newline ++ "This can be for a few reasons e.g.:") ;;;
      print "- The movie is is considered a TV show on Plex Discover" ;;;
      print "- The movie is considered upcoming/unconfirmed as is so not available on the Plex Discover"
  end.

Definition main (workers as_completed : schedule) : M unit :=
  env <- get_environment_variables ;;
  let '(plex_token, _, letterboxd_username) := env in
  call (EvAccount plex_token) (fun tr => MyPlexAccount w tr plex_token) ;;;
  current_watchlist_items <- call EvWatchlist (watchlist w) ;;
  print "Getting Letterboxd data" ;;;
  lists <- get_letterboxd_data letterboxd_username ;;
  let '(letterboxd_watchlist, letterboxd_watched) := lists in
  print "Processing watchlist items" ;;;
  b <- process_watchlist_items workers as_completed current_watchlist_items
         letterboxd_watchlist letterboxd_watched ;;
  (match movies_to_remove b with
   | [] => ret tt
   | _ :: _ =>
       print "Clear already watched movies." ;;;
       call (EvRemove (movies_to_remove b))
            (fun tr => removeFromWatchlist w tr (movies_to_remove b)) ;;;
       print "Done clear already watched movies."
   end) ;;;
  unsynced_movies <- sync_watchlist letterboxd_watchlist (already_present b) ;;
  report unsynced_movies.

End Program.

(** * Notions used in the statements *)

(** The value of the extractor, as a function. *)
Definition extract (guid : string) : option string :=
  match get_imdb_id_from_guid guid with
  | Ok r => r
  | Raise _ => None
  end.

(** The value of the classifier, as a function. *)
Definition classify (item : Item) (desired watched : list Movie) : outcome :=
  match task_result item desired watched with
  | Ok o => o
  | Raise _ => Add item
  end.

(** What a worker writes with an outcome: one line when it removes. *)
Definition worker_lines (o : outcome) : trace :=
  match o with
  | Remove _ item => [EvPrint (watched_line item)]
  | _ => []
  end.

(** The first id an item's identifiers yield: identifiers that yield nothing
    or an empty id are passed over, as both loops over [guids] do. *)
Fixpoint first_extracted_id (gs : list string) : option string :=
  match gs with
  | [] => None
  | guid :: gs' =>
      match extract guid with
      | Some id => if PyStr.truthy id then Some id else first_extracted_id gs'
      | None => first_extracted_id gs'
      end
  end.

(** The id the classifier settles on: the first non-empty id, in the order
    of the item's identifiers, that is in the watched or in the desired list.
    For an item with one decodable id it is that id, when listed. *)
Fixpoint deciding_id (desired watched : list Movie) (gs : list string) : option string :=
  match gs with
  | [] => None
  | guid :: gs' =>
      match extract guid with
      | Some id =>
          if PyStr.truthy id && (id_listed id watched || id_listed id desired)
          then Some id
          else deciding_id desired watched gs'
      | None => deciding_id desired watched gs'
      end
  end.

(** A candidate confirms a record when one of its identifiers yields a
    non-empty id equal to the record's. *)
Definition confirms (movie : Movie) (candidate : Item) : bool :=
  existsb (fun guid =>
             match extract guid with
             | Some id => PyStr.truthy id && String.eqb id (imdb_id movie)
             | None => false
             end)
          (guids candidate).

(** The members of each kind among a list of outcomes, in order. *)
Definition removals (os : list outcome) : list Item :=
  flat_map (fun o => match o with Remove _ item => [item] | _ => [] end) os.

Definition presents (os : list outcome) : list string :=
  flat_map (fun o => match o with Present id => [id] | _ => [] end) os.

Definition additions (os : list outcome) : list Item :=
  flat_map (fun o => match o with Add item => [item] | _ => [] end) os.

(** Sample data. *)
Definition shawshank : Movie := {| title := "Shawshank"; imdb_id := "tt0111161" |}.
Definition godfather : Movie := {| title := "The Godfather"; imdb_id := "tt0068646" |}.

Definition plex_shawshank : Item :=
  {| item_title := "The Shawshank Redemption";
     guids := ["<Guid:imdb://tt0111161>"; "<Guid:tmdb://278>"] |}.
Definition plex_godfather : Item :=
  {| item_title := "The Godfather";
     guids := ["<Guid:imdb://tt0068646>"; "<Guid:tmdb://238>"] |}.

(** The candidates added and the titles searched along a trace, in order. *)
Definition added_candidates (tr : trace) : list Item :=
  flat_map (fun ev => match ev with EvAdd c => [c] | _ => [] end) tr.

Definition searched_titles (tr : trace) : list string :=
  flat_map (fun ev => match ev with EvSearch q => [q] | _ => [] end) tr.

(** The records the convergence driver has to deal with. *)
Definition not_present (present : list string) (movie : Movie) : bool :=
  negb (py_in (imdb_id movie) present).

(** Convergence calls: what the driver asks of the media server. *)
Definition is_convergence_call (ev : event) : bool :=
  match ev with
  | EvSearch _ | EvAdd _ => true
  | _ => false
  end.

(** A media server on which every call succeeds; Discover knows the two
    sample films by their titles. *)
Definition sample_world : World :=
  {| getenv := fun name =>
       if String.eqb name "PLEX_TOKEN" then Some "token"
       else if String.eqb name "PLEX_URL" then Some "http://plex.local:32400"
       else if String.eqb name "LETTERBOXD_USERNAME" then Some "alice"
       else None;
     MyPlexAccount := fun _ _ => Ok tt;
     watchlist := fun _ => Ok [plex_shawshank];
     requests_get_json := fun _ url =>
       if String.eqb url "https://letterboxd-list-radarr.onrender.com/alice/watchlist/"
       then Ok [godfather]
       else Ok [shawshank];
     removeFromWatchlist := fun _ _ => Ok tt;
     searchDiscover := fun _ query =>
       if String.eqb query "Shawshank" then Ok [plex_godfather; plex_shawshank]
       else if String.eqb query "The Godfather" then Ok [plex_godfather]
       else Ok [];
     addToWatchlist := fun _ _ => Ok tt |}.

(** The same, except that the search for one title, every add and the bulk
    remove are refused. *)
Definition failing_world : World :=
  {| getenv := getenv sample_world;
     MyPlexAccount := MyPlexAccount sample_world;
     watchlist := watchlist sample_world;
     requests_get_json := requests_get_json sample_world;
     removeFromWatchlist := fun _ _ => Raise (RemoteError "remove refused");
     searchDiscover := fun tr query =>
       if String.eqb query "Shawshank" then Raise (RemoteError "search timed out")
       else searchDiscover sample_world tr query;
     addToWatchlist := fun _ _ => Raise (RemoteError "add refused") |}.

(** Events of the phases before the bulk remove: no call that changes or
    searches the Plex watchlist, and no line of the final report. *)
Definition quiet (ev : event) : bool :=
  match ev with
  | EvRemove _ | EvSearch _ | EvAdd _ => false
  | EvPrint line => negb (prefix newline line)
  | _ => true
  end.

Definition no_remove (ev : event) : bool :=
  match ev with
  | EvRemove _ => false
  | _ => true
  end.

(** A computation emits only events of one kind. *)
Definition emits (P : event -> bool) {A : Type} (m : M A) : Prop :=
  forall tr tr' r, m tr = (tr', r) ->
    exists ext, tr' = tr ++ ext /\ forallb P ext = true.

(** The two halves of [main]: everything up to the classification, and
    everything from the bulk remove on. *)
Definition main_prelude (w : World) (workers as_completed : schedule)
    : M (list Movie * buckets) :=
  env <- get_environment_variables w ;;
  let '(plex_token, _, letterboxd_username) := env in
  call (EvAccount plex_token) (fun tr => MyPlexAccount w tr plex_token) ;;;
  current_watchlist_items <- call EvWatchlist (watchlist w) ;;
  print "Getting Letterboxd data" ;;;
  lists <- get_letterboxd_data w letterboxd_username ;;
  let '(letterboxd_watchlist, letterboxd_watched) := lists in
  print "Processing watchlist items" ;;;
  b <- process_watchlist_items workers as_completed current_watchlist_items
         letterboxd_watchlist letterboxd_watched ;;
  ret (letterboxd_watchlist, b).

Definition main_converge (w : World) (letterboxd_watchlist : list Movie)
    (b : buckets) : M unit :=
  unsynced_movies <- sync_watchlist w letterboxd_watchlist (already_present b) ;;
  report unsynced_movies.

Definition clear_line : string := "Clear already watched movies.".
Definition done_clear_line : string := "Done clear already watched movies.".

(** The trace of a run on [failing_world] up to the bulk remove. *)
Definition trace_before_remove : trace :=
  [EvAccount "token"; EvWatchlist; EvPrint "Getting Letterboxd data";
   EvPrint "Get Watchlist and Watched Films info from Letterboxd";
   EvPrint "Warning: The following API calls may take some time to complete.";
   EvGet "https://letterboxd-list-radarr.onrender.com/alice/watchlist/";
   EvGet "https://letterboxd-list-radarr.onrender.com/alice/films/";
   EvPrint "Got Watchlist and Watched Films info from Letterboxd";
   EvPrint "Processing watchlist items";
   EvPrint "Movie The Shawshank Redemption already watched. Adding to delete list";
   EvPrint "Clear already watched movies."].

(** * Notions used in the further properties *)

(** No occurrence of [sep] in [cur ++ s] starts inside [cur]. *)
Fixpoint unstarted (sep cur s : string) : bool :=
  match cur with
  | EmptyString => true
  | String _ cur' => negb (prefix sep (cur ++ s)) && unstarted sep cur' s
  end.

(** An id holds neither of the two delimiters the extractor cuts at. *)
Definition clean_id (id : string) : bool :=
  negb (PyStr.contains "://" id) && negb (PyStr.contains ">" id).

(** What the convergence driver may do: search, add and print. *)
Definition convergence_event (ev : event) : bool :=
  match ev with
  | EvSearch _ | EvAdd _ | EvPrint _ => true
  | _ => false
  end.

(** [l] is [l'] with some members left out, the order kept. *)
Inductive subsequence {A : Type} : list A -> list A -> Prop :=
| subsequence_nil : subsequence [] []
| subsequence_skip (x : A) (l l' : list A) :
    subsequence l l' -> subsequence l (x :: l')
| subsequence_take (x : A) (l l' : list A) :
    subsequence l l' -> subsequence (x :: l) (x :: l').

(** The required variables that are unset or empty, in the order in which
    [get_environment_variables] lists them. *)
Definition missing_variables (w : World) : list string :=
  filter (fun name => falsy (getenv w name))
         ["PLEX_TOKEN"; "PLEX_URL"; "LETTERBOXD_USERNAME"].

(** What is written to the error stream for a list of missing variables. *)
Definition missing_report (names : list string) : trace :=
  EvStderr "Error: Missing required environment variables:"
  :: map (fun name => EvStderr ("- " ++ name)) names
  ++ [EvStderr (newline ++ "Please set these variables in your .env file")].

(** The URLs requested and the lists removed along a trace, in order. *)
Definition requested_urls (tr : trace) : list string :=
  flat_map (fun ev => match ev with EvGet url => [url] | _ => [] end) tr.

Definition removed_lists (tr : trace) : list (list Item) :=
  flat_map (fun ev => match ev with EvRemove items => [items] | _ => [] end) tr.



(** A service whose every answer is a request error. *)
Definition offline_world : World :=
  {| getenv := getenv sample_world;
     MyPlexAccount := MyPlexAccount sample_world;
     watchlist := watchlist sample_world;
     requests_get_json := fun _ _ => Raise (RequestError "connection refused");
     removeFromWatchlist := removeFromWatchlist sample_world;
     searchDiscover := searchDiscover sample_world;
     addToWatchlist := addToWatchlist sample_world |}.

(** A machine on which one variable is unset and one is empty. *)
Definition unconfigured_world : World :=
  {| getenv := fun name =>
       if String.eqb name "PLEX_URL" then Some "http://plex.local:32400"
       else if String.eqb name "LETTERBOXD_USERNAME" then Some ""
       else None;
     MyPlexAccount := MyPlexAccount sample_world;
     watchlist := watchlist sample_world;
     requests_get_json := requests_get_json sample_world;
     removeFromWatchlist := removeFromWatchlist sample_world;
     searchDiscover := searchDiscover sample_world;
     addToWatchlist := addToWatchlist sample_world |}.

(** The lines that close the final report. *)
Definition report_footer : trace :=
  [EvPrint (newline ++ "This can be for a few reasons e.g.:");
   EvPrint "- The movie is is considered a TV show on Plex Discover";
   EvPrint "- The movie is considered upcoming/unconfirmed as is so not available on the Plex Discover"].

(** * Properties *)

(** ** The model on sample inputs *)

Example ex_split_1 : PyStr.split "a://b://c" "://" = ["a"; "b"; "c"].
Proof. reflexivity. Qed.
Example ex_split_2 : PyStr.split "a://" "://" = ["a"; ""].
Proof. reflexivity. Qed.
Example ex_split_3 : PyStr.split "://a:/://" "://" = [""; "a:/"; ""].
Proof. reflexivity. Qed.
Example ex_split_4 : PyStr.split "" ">" = [""].
Proof. reflexivity. Qed.
Example ex_split_5 : PyStr.split "aaa" "aa" = [""; "a"].
Proof. reflexivity. Qed.
Example ex_guid_1 : get_imdb_id_from_guid "<Guid:imdb://tt0111161>" = Ok (Some "tt0111161").
Proof. reflexivity. Qed.
Example ex_guid_2 : get_imdb_id_from_guid "<Guid:tmdb://278>" = Ok None.
Proof. reflexivity. Qed.
Example ex_guid_3 : get_imdb_id_from_guid "imdb://tt0111161<extra>" = Ok (Some "tt0111161<extra").
Proof. reflexivity. Qed.
Example ex_guid_4 : get_imdb_id_from_guid "tmdb://x?ref=imdb://tt1" = Ok (Some "x?ref=imdb").
Proof. reflexivity. Qed.

Example ex_scenario_a :
  process_single_watchlist_item plex_shawshank [] [shawshank] []
  = ([EvPrint "Movie The Shawshank Redemption already watched. Adding to delete list"],
     Ok (Remove "tt0111161" plex_shawshank)).
Proof. reflexivity. Qed.

Example ex_scenario_b :
  process_single_watchlist_item
    {| item_title := "The Godfather"; guids := ["imdb://tt0068646"] |} [godfather] [] []
  = ([], Ok (Present "tt0068646")).
Proof. reflexivity. Qed.

Example ex_scenario_e :
  process_single_watchlist_item
    {| item_title := "Some show"; guids := ["tvdb://123"; "tmdb://456"] |}
    [godfather] [shawshank] []
  = ([], Ok (Add {| item_title := "Some show"; guids := ["tvdb://123"; "tmdb://456"] |})).
Proof. reflexivity. Qed.

Example ex_scenario_c :
  sync_watchlist sample_world [{| title := "Shawshank"; imdb_id := "tt9999999" |}] [] []
  = ([EvSearch "Shawshank"; EvPrint "Searching for.. Shawshank";
      EvPrint " - Could not find Shawshank (IMDB ID: tt9999999) in Plex Discover"],
     Ok [{| title := "Shawshank"; imdb_id := "tt9999999" |}]).
Proof. reflexivity. Qed.

(** An item with two decodable ids is settled by the first one that is in
    either list. *)
Example ex_two_ids :
  process_single_watchlist_item
    {| item_title := "Double bill";
       guids := ["<Guid:imdb://tt0068646>"; "<Guid:imdb://tt0111161>"] |}
    [godfather; shawshank] [shawshank] []
  = ([], Ok (Present "tt0068646")).
Proof. reflexivity. Qed.

(** ** Strings *)

Module PyStrFacts.
Import PyStr.

Lemma prefix_empty (s : string) : prefix EmptyString s = true.
Proof. destruct s; reflexivity. Qed.

Lemma prefix_cons (a b : ascii) (n s : string) :
  prefix (String a n) (String b s) = if ascii_dec a b then prefix n s else false.
Proof. reflexivity. Qed.

Lemma prefix_split (n s : string) :
  prefix n s = true <-> exists rest, s = (n ++ rest)%string.
Proof.
  revert s; induction n as [|a n IH]; intros s.
  - rewrite prefix_empty. split; [exists s; reflexivity | reflexivity].
  - destruct s as [|b s].
    + split; [discriminate | intros [rest H]; discriminate H].
    + rewrite prefix_cons. destruct (ascii_dec a b) as [->|Hab].
      * rewrite IH. split; intros [rest H]; exists rest.
        -- simpl; now rewrite H.
        -- simpl in H; now inversion H.
      * split; [discriminate|]. intros [rest H]. simpl in H. congruence.
Qed.

Lemma contains_unfold (n s : string) :
  contains n s =
  if prefix n s then true
  else match s with
       | EmptyString => false
       | String _ s' => contains n s'
       end.
Proof. destruct s; reflexivity. Qed.

(** [contains] is the substring test: [n in s] holds exactly when [s] can be
    cut as [a ++ n ++ b]. *)
Lemma contains_occurrence (n s : string) :
  contains n s = true <-> exists a b, s = (a ++ n ++ b)%string.
Proof.
  split.
  - induction s as [|c s IH]; rewrite contains_unfold;
      destruct (prefix n _) eqn:Hp.
    + intros _. apply prefix_split in Hp as [rest ->]. now exists EmptyString, rest.
    + discriminate.
    + intros _. apply prefix_split in Hp as [rest ->]. now exists EmptyString, rest.
    + intros H. destruct (IH H) as (a & b & ->). now exists (String c a), b.
  - intros (a & b & ->). induction a as [|c a IH].
    + rewrite contains_unfold.
      replace (prefix n (EmptyString ++ n ++ b)%string) with true; [reflexivity|].
      symmetry. apply prefix_split. now exists b.
    + change (String c a ++ n ++ b)%string with (String c (a ++ n ++ b)).
      rewrite contains_unfold.
      destruct (prefix n (String c (a ++ n ++ b))); [reflexivity | exact IH].
Qed.

Lemma contains_false_cons (n : string) (c : ascii) (s : string) :
  contains n (String c s) = false ->
  prefix n (String c s) = false /\ contains n s = false.
Proof.
  rewrite contains_unfold. destruct (prefix n (String c s)); [discriminate|auto].
Qed.

(** Every string that contains ["imdb://"] contains ["://"]. *)
Lemma imdb_marker_has_separator (s : string) :
  contains "imdb://" s = true -> contains "://" s = true.
Proof.
  intros H. apply contains_occurrence in H as (a & b & ->).
  apply contains_occurrence. exists (a ++ "imdb")%string, b.
  induction a as [|c a IH]; [reflexivity | simpl; f_equal; exact IH].
Qed.

Lemma split_go_unfold (sep : string) (skip : nat) (cur : string) (c : ascii) (s : string) :
  split_go sep skip cur (String c s) =
  match skip with
  | S k => split_go sep k cur s
  | O => if prefix sep (String c s)
         then cur :: split_go sep (String.length sep - 1) EmptyString s
         else split_go sep O (cur ++ String c EmptyString) s
  end.
Proof. reflexivity. Qed.

(** A split always yields at least one piece. *)
Lemma split_go_nonempty (sep : string) (s : string) :
  forall skip cur, 1 <= List.length (split_go sep skip cur s).
Proof.
  induction s as [|c s IH]; intros skip cur.
  - simpl; lia.
  - rewrite split_go_unfold. destruct skip; [|apply IH].
    destruct (prefix sep (String c s)); [simpl; lia | apply IH].
Qed.

(** A split on a separator that occurs yields at least two pieces. *)
Lemma split_go_two (sep : string) (s : string) :
  sep <> EmptyString ->
  contains sep s = true ->
  forall cur, 2 <= List.length (split_go sep 0 cur s).
Proof.
  intros Hsep.
  induction s as [|c s IH]; intros H cur.
  - rewrite contains_unfold in H. destruct sep; [congruence | discriminate].
  - rewrite contains_unfold in H. rewrite split_go_unfold.
    destruct (prefix sep (String c s)).
    + pose proof (split_go_nonempty sep s (String.length sep - 1) EmptyString).
      simpl; lia.
    + apply IH, H.
Qed.

Lemma append_empty_r (s : string) : (s ++ EmptyString)%string = s.
Proof. induction s as [|c s IH]; [reflexivity | simpl; now rewrite IH]. Qed.

Lemma append_assoc (a b c : string) : ((a ++ b) ++ c)%string = (a ++ b ++ c)%string.
Proof. induction a as [|x a IH]; [reflexivity | simpl; now rewrite IH]. Qed.

(** The first piece of a split extends what has been collected so far. *)
Lemma split_go_head (sep : string) (s : string) :
  forall cur, exists y tl, split_go sep 0 cur s = (cur ++ y)%string :: tl.
Proof.
  induction s as [|c s IH]; intros cur.
  - exists EmptyString, []. simpl. now rewrite append_empty_r.
  - rewrite split_go_unfold. destruct (prefix sep (String c s)).
    + eexists EmptyString, _. now rewrite append_empty_r.
    + destruct (IH (cur ++ String c EmptyString)%string) as (y & tl & ->).
      exists (String c y), tl. now rewrite append_assoc.
Qed.

(** A separator cannot start inside [a] when [a] does not contain it and the
    text after [a] starts with a character foreign to the separator. *)
Lemma prefix_app_false (sep : string) :
  forall (a : string) (c : ascii) (x : string),
    contains (String c EmptyString) sep = false ->
    prefix sep a = false ->
    prefix sep (a ++ String c x) = false.
Proof.
  induction sep as [|s1 sep IH]; intros a c x Hc Ha.
  - rewrite prefix_empty in Ha. discriminate.
  - apply contains_false_cons in Hc as [Hc1 Hc2].
    rewrite prefix_cons, prefix_empty in Hc1.
    destruct a as [|a1 a].
    + change (EmptyString ++ String c x)%string with (String c x).
      rewrite prefix_cons. destruct (ascii_dec s1 c) as [->|]; [|reflexivity].
      destruct (ascii_dec c c); [discriminate | congruence].
    + change (String a1 a ++ String c x)%string with (String a1 (a ++ String c x)).
      rewrite prefix_cons in *. destruct (ascii_dec s1 a1); [|reflexivity].
      now apply IH.
Qed.

Lemma split_go_pass (sep : string) (c : ascii) (x : string) (a : string) :
  contains (String c EmptyString) sep = false ->
  contains sep a = false ->
  forall cur,
    split_go sep 0 cur (a ++ String c x) = split_go sep 0 (cur ++ a) (String c x).
Proof.
  intros Hc. induction a as [|a1 a IH]; intros Ha cur.
  - now rewrite append_empty_r.
  - apply contains_false_cons in Ha as [Hp Ha].
    change (String a1 a ++ String c x)%string with (String a1 (a ++ String c x)).
    rewrite split_go_unfold.
    change (String a1 (a ++ String c x)) with (String a1 a ++ String c x)%string.
    rewrite (prefix_app_false _ _ _ x Hc Hp), (IH Ha), append_assoc.
    reflexivity.
Qed.

(** Splitting on a single character stops at its first occurrence. *)
Lemma split_go_char_stop (c : ascii) (x : string) (v : string) :
  contains (String c EmptyString) v = false ->
  forall cur,
    split_go (String c EmptyString) 0 cur (v ++ String c x) =
    (cur ++ v)%string :: split_go (String c EmptyString) 0 EmptyString x.
Proof.
  induction v as [|a v IH]; intros Hv cur.
  - change (EmptyString ++ String c x)%string with (String c x).
    rewrite split_go_unfold, prefix_cons, prefix_empty, append_empty_r.
    destruct (ascii_dec c c); [reflexivity | congruence].
  - apply contains_false_cons in Hv as [Hp Hv].
    change (String a v ++ String c x)%string with (String a (v ++ String c x)).
    rewrite split_go_unfold. rewrite prefix_cons, prefix_empty in *.
    destruct (ascii_dec c a); [discriminate|].
    rewrite (IH Hv), append_assoc. reflexivity.
Qed.

End PyStrFacts.

(** ** Identifier extractor *)

Lemma extractor_total (guid : string) :
  exists r, get_imdb_id_from_guid guid = Ok r.
Proof.
  unfold get_imdb_id_from_guid.
  destruct (PyStr.contains "imdb://" guid) eqn:Hin; [|now exists None].
  apply PyStrFacts.imdb_marker_has_separator in Hin.
  pose proof (PyStrFacts.split_go_two "://" guid ltac:(discriminate) Hin EmptyString) as H2.
  unfold PyStr.split, PyStr.subscript.
  destruct (PyStr.split_go "://" 0 EmptyString guid) as [|p0 [|rest l]];
    simpl in H2; try lia.
  simpl.
  pose proof (PyStrFacts.split_go_nonempty ">" rest 0 EmptyString) as H1.
  destruct (PyStr.split_go ">" 0 EmptyString rest) as [|id l']; simpl in H1; try lia.
  simpl. now exists (Some id).
Qed.

Lemma extractor_value (guid : string) :
  get_imdb_id_from_guid guid = Ok (extract guid).
Proof.
  unfold extract. destruct (extractor_total guid) as [r ->]. reflexivity.
Qed.

(** The extractor on an identifier text of the shape the media server
    prints: ["imdb://"], the value, [">"], with anything before that holds no
    ["://"] and anything after. *)
Lemma extractor_delimited (pre v extra : string) :
  PyStr.contains "://" pre = false ->
  PyStr.contains "://" v = false ->
  PyStr.contains ">" v = false ->
  get_imdb_id_from_guid (pre ++ "imdb://" ++ v ++ ">" ++ extra) = Ok (Some v).
Proof.
  intros Hpre Hv1 Hv2. unfold get_imdb_id_from_guid.
  replace (PyStr.contains "imdb://" (pre ++ "imdb://" ++ v ++ ">" ++ extra)) with true
    by (symmetry; apply PyStrFacts.contains_occurrence; eauto).
  unfold PyStr.split.
  change (pre ++ "imdb://" ++ v ++ ">" ++ extra)%string
    with (pre ++ String "i" ("mdb://" ++ v ++ ">" ++ extra))%string.
  rewrite (PyStrFacts.split_go_pass "://" "i" _ pre eq_refl Hpre).
  cbn. rewrite PyStrFacts.prefix_empty.
  rewrite (PyStrFacts.split_go_pass "://" ">" extra v eq_refl Hv1).
  rewrite PyStrFacts.split_go_unfold.
  change (prefix "://" (String ">" extra)) with false. cbv iota.
  destruct (PyStrFacts.split_go_head "://" extra (("" ++ v) ++ ">")%string)
    as (y & tl & ->).
  cbn [PyStr.subscript nth_error rbind append].
  rewrite PyStrFacts.append_assoc.
  change (">" ++ y)%string with (String ">" y).
  unfold PyStr.split.
  rewrite (PyStrFacts.split_go_char_stop ">" y v Hv2).
  reflexivity.
Qed.

(** ** Item classifier *)

Lemma scan_item_guids_cons (guid : string) (gs : list string) (item : Item)
    (desired watched : list Movie) (tr : trace) :
  scan_item_guids (guid :: gs) false item desired watched tr =
  match extract guid with
  | None => scan_item_guids gs false item desired watched tr
  | Some id =>
      if negb (PyStr.truthy id) then scan_item_guids gs false item desired watched tr
      else if id_listed id watched
      then (tr ++ [EvPrint (watched_line item)], Ok (Remove id item))
      else if id_listed id desired then (tr, Ok (Present id))
      else scan_item_guids gs false item desired watched tr
  end.
Proof.
  cbn [scan_item_guids]. unfold bind at 1, lift. rewrite extractor_value.
  destruct (extract guid) as [id|]; [|reflexivity].
  destruct (negb (PyStr.truthy id)); [reflexivity|].
  destruct (id_listed id watched); [reflexivity|].
  destruct (id_listed id desired); reflexivity.
Qed.

(** The scan never raises; its value does not depend on what was printed
    before, and it prints one line exactly when it removes. *)
Lemma scan_item_guids_run (gs : list string) (item : Item)
    (desired watched : list Movie) :
  exists o, forall tr,
    scan_item_guids gs false item desired watched tr = (tr ++ worker_lines o, Ok o).
Proof.
  induction gs as [|guid gs IH].
  - exists (Add item). intros tr. cbn. now rewrite app_nil_r.
  - destruct IH as [o IH].
    destruct (extract guid) as [id|] eqn:He.
    + destruct (negb (PyStr.truthy id)) eqn:Ht.
      * exists o. intros tr. now rewrite scan_item_guids_cons, He, Ht.
      * destruct (id_listed id watched) eqn:Hw.
        { exists (Remove id item). intros tr.
          now rewrite scan_item_guids_cons, He, Ht, Hw. }
        destruct (id_listed id desired) eqn:Hd.
        { exists (Present id). intros tr.
          rewrite scan_item_guids_cons, He, Ht, Hw, Hd. cbn. now rewrite app_nil_r. }
        exists o. intros tr. now rewrite scan_item_guids_cons, He, Ht, Hw, Hd.
    + exists o. intros tr. now rewrite scan_item_guids_cons, He.
Qed.

Lemma classifier_value (item : Item) (desired watched : list Movie) (tr : trace) :
  process_single_watchlist_item item desired watched tr =
  (tr ++ worker_lines (classify item desired watched),
   Ok (classify item desired watched)).
Proof.
  unfold classify, task_result, process_single_watchlist_item.
  destruct (scan_item_guids_run (guids item) item desired watched) as [o Ho].
  now rewrite !Ho.
Qed.

Lemma task_result_value (item : Item) (desired watched : list Movie) :
  task_result item desired watched = Ok (classify item desired watched).
Proof. unfold task_result. now rewrite classifier_value. Qed.

Lemma task_output_value (item : Item) (desired watched : list Movie) :
  task_output item desired watched = worker_lines (classify item desired watched).
Proof. unfold task_output. now rewrite classifier_value. Qed.

(** Identifiers that yield no id are passed over: the first id the item
    yields is the first one checked, against the watched list first. *)
Lemma scan_item_guids_first_watched (gs : list string) (item : Item)
    (desired watched : list Movie) (id : string) (tr : trace) :
  first_extracted_id gs = Some id ->
  id_listed id watched = true ->
  scan_item_guids gs false item desired watched tr
  = (tr ++ [EvPrint (watched_line item)], Ok (Remove id item)).
Proof.
  intros Hfirst Hw. induction gs as [|guid gs IH]; [discriminate|].
  simpl in Hfirst. rewrite scan_item_guids_cons.
  destruct (extract guid) as [id'|]; [|auto].
  destruct (PyStr.truthy id'); simpl; [|auto].
  injection Hfirst as ->. now rewrite Hw.
Qed.

Lemma scan_item_guids_first_desired (gs : list string) (item : Item)
    (desired watched : list Movie) (id : string) (tr : trace) :
  first_extracted_id gs = Some id ->
  id_listed id watched = false ->
  id_listed id desired = true ->
  scan_item_guids gs false item desired watched tr = (tr, Ok (Present id)).
Proof.
  intros Hfirst Hw Hd. induction gs as [|guid gs IH]; [discriminate|].
  simpl in Hfirst. rewrite scan_item_guids_cons.
  destruct (extract guid) as [id'|]; [|auto].
  destruct (PyStr.truthy id'); simpl; [|auto].
  injection Hfirst as ->. now rewrite Hw, Hd.
Qed.

Lemma first_extracted_id_decides (gs : list string) (desired watched : list Movie)
    (id : string) :
  first_extracted_id gs = Some id ->
  id_listed id watched || id_listed id desired = true ->
  deciding_id desired watched gs = Some id.
Proof.
  intros Hfirst Hl. induction gs as [|guid gs IH]; [discriminate|].
  simpl in *. destruct (extract guid) as [id'|]; [|auto].
  destruct (PyStr.truthy id'); simpl; [|auto].
  injection Hfirst as ->. now rewrite Hl.
Qed.

(** The scan stops at the deciding id, with the watched list asked first. *)
Lemma scan_item_guids_deciding (gs : list string) (item : Item)
    (desired watched : list Movie) (id : string) (tr : trace) :
  deciding_id desired watched gs = Some id ->
  scan_item_guids gs false item desired watched tr =
  if id_listed id watched
  then (tr ++ [EvPrint (watched_line item)], Ok (Remove id item))
  else (tr, Ok (Present id)).
Proof.
  induction gs as [|guid gs IH]; [discriminate|].
  intros Hd. simpl in Hd. rewrite scan_item_guids_cons.
  destruct (extract guid) as [id'|]; [|auto].
  destruct (PyStr.truthy id'); simpl in *; [|auto].
  destruct (id_listed id' watched) eqn:Hw; simpl in Hd.
  - injection Hd as <-. now rewrite Hw.
  - destruct (id_listed id' desired) eqn:Hdes; [|auto].
    injection Hd as <-. now rewrite Hw.
Qed.

(** ** Reconciliation scheduler *)

Lemma collect_outcomes (os : list outcome) :
  forall b,
    collect (map Ok os) b =
    Ok {| movies_to_remove := movies_to_remove b ++ removals os;
          already_present := already_present b ++ presents os;
          movies_to_add_to_letterboxd := movies_to_add_to_letterboxd b ++ additions os |}.
Proof.
  induction os as [|o os IH]; intros b.
  - simpl. rewrite !app_nil_r. now destruct b.
  - simpl. rewrite IH. destruct o; simpl; rewrite <- ?app_assoc; reflexivity.
Qed.

Lemma futures_are_outcomes (items : list Item) (desired watched : list Movie) :
  map (fun item => task_result item desired watched) items =
  map Ok (map (fun item => classify item desired watched) items).
Proof.
  rewrite map_map. apply map_ext. intros item. apply task_result_value.
Qed.

Lemma scheduler_value (workers as_completed : schedule) (items : list Item)
    (desired watched : list Movie) (tr : trace) :
  process_watchlist_items workers as_completed items desired watched tr =
  let os := map (fun item => classify item desired watched) (as_completed items) in
  (tr ++ flat_map (fun item => worker_lines (classify item desired watched))
                  (workers items),
   Ok {| movies_to_remove := removals os;
         already_present := presents os;
         movies_to_add_to_letterboxd := additions os |}).
Proof.
  unfold process_watchlist_items.
  rewrite futures_are_outcomes, collect_outcomes. cbn zeta. f_equal. f_equal.
  apply flat_map_ext. intros item. apply task_output_value.
Qed.

Lemma outcome_kinds_count (os : list outcome) :
  List.length (removals os) + List.length (presents os) + List.length (additions os) =
  List.length os.
Proof.
  induction os as [|o os IH]; [reflexivity|].
  unfold removals, presents, additions in *.
  destruct o; simpl; lia.
Qed.

Lemma fair_submission_order : fair submission_order.
Proof. intros items. apply Permutation_refl. Qed.

Lemma fair_reverse_order : fair reverse_order.
Proof. intros items. apply Permutation_rev. Qed.

(** ** Convergence driver *)

Section Convergence.

Variable w : World.

Lemma scan_result_guids_value (gs : list string) (movie : Movie) :
  scan_result_guids gs movie =
  Ok (existsb (fun guid =>
                 match extract guid with
                 | Some id => PyStr.truthy id && String.eqb id (imdb_id movie)
                 | None => false
                 end) gs).
Proof.
  induction gs as [|guid gs IH]; [reflexivity|].
  simpl. rewrite extractor_value. simpl.
  destruct (extract guid) as [id|]; [|exact IH].
  destruct (PyStr.truthy id && String.eqb id (imdb_id movie)); [reflexivity | exact IH].
Qed.

Lemma scan_discover_results_cons (c : Item) (rest : list Item) (movie : Movie) (tr : trace) :
  scan_discover_results w (c :: rest) movie tr =
  if confirms movie c then
    (tr ++ [EvPrint (adding_line movie); EvAdd c],
     match addToWatchlist w (tr ++ [EvPrint (adding_line movie)]) c with
     | Ok _ => Ok true
     | Raise e => Raise e
     end)
  else scan_discover_results w rest movie tr.
Proof.
  cbn [scan_discover_results]. unfold bind at 1, lift.
  rewrite scan_result_guids_value. fold (confirms movie c).
  destruct (confirms movie c); [|reflexivity].
  unfold bind, print, call, ret. rewrite <- app_assoc. simpl.
  destruct (addToWatchlist w _ c); reflexivity.
Qed.

(** No candidate confirms the record: nothing is added. *)
Lemma scan_discover_results_none (cands : list Item) (movie : Movie) (tr : trace) :
  forallb (fun c => negb (confirms movie c)) cands = true ->
  scan_discover_results w cands movie tr = (tr, Ok false).
Proof.
  induction cands as [|c cands IH]; intros H; [reflexivity|].
  simpl in H. apply andb_prop in H as [Hc H].
  rewrite scan_discover_results_cons.
  destruct (confirms movie c); [discriminate | auto].
Qed.

(** The first candidate that confirms the record is added, and the scan
    ends there. *)
Lemma scan_discover_results_first (before : list Item) (c : Item) (after : list Item)
    (movie : Movie) (tr : trace) :
  forallb (fun c => negb (confirms movie c)) before = true ->
  confirms movie c = true ->
  scan_discover_results w (before ++ c :: after) movie tr =
  (tr ++ [EvPrint (adding_line movie); EvAdd c],
   match addToWatchlist w (tr ++ [EvPrint (adding_line movie)]) c with
   | Ok _ => Ok true
   | Raise e => Raise e
   end).
Proof.
  induction before as [|c0 before IH]; intros H Hc.
  - change ([] ++ c :: after) with (c :: after).
    rewrite scan_discover_results_cons, Hc. reflexivity.
  - simpl in H. apply andb_prop in H as [Hc0 H].
    change ((c0 :: before) ++ c :: after) with (c0 :: (before ++ c :: after)).
    rewrite scan_discover_results_cons.
    destruct (confirms movie c0); [discriminate | auto].
Qed.

Lemma first_confirming (movie : Movie) (cands : list Item) :
  forallb (fun c => negb (confirms movie c)) cands = true \/
  exists before c after,
    cands = before ++ c :: after /\
    forallb (fun c => negb (confirms movie c)) before = true /\
    confirms movie c = true.
Proof.
  induction cands as [|c cands IH]; [now left|].
  destruct (confirms movie c) eqn:Hc.
  - right. exists [], c, cands. auto.
  - destruct IH as [IH | (before & c' & after & -> & Hb & Hc')].
    + left. simpl. now rewrite Hc.
    + right. exists (c :: before), c', after. simpl. rewrite Hc. auto.
Qed.

(** One iteration of the loop over the desired list. *)
Lemma sync_loop_cons (movie : Movie) (rest : list Movie) (present : list string)
    (acc : list Movie) (tr : trace) :
  sync_loop w (movie :: rest) present acc tr =
  if py_in (imdb_id movie) present then sync_loop w rest present acc tr
  else
    match searchDiscover w tr (title movie) with
    | Raise e => (tr ++ [EvSearch (title movie)], Raise e)
    | Ok cands =>
        match scan_discover_results w cands movie
                (tr ++ [EvSearch (title movie); EvPrint (searching_line movie)]) with
        | (tr', Ok true) => sync_loop w rest present acc tr'
        | (tr', Ok false) =>
            sync_loop w rest present (acc ++ [movie])
              (tr' ++ [EvPrint (not_found_line movie)])
        | (tr', Raise e) => (tr', Raise e)
        end
    end.
Proof.
  cbn [sync_loop]. destruct (py_in (imdb_id movie) present); [reflexivity|].
  unfold bind at 1, call.
  destruct (searchDiscover w tr (title movie)) as [cands|e]; [|reflexivity].
  unfold bind at 1, print. rewrite <- app_assoc. simpl app.
  unfold bind at 1.
  destruct (scan_discover_results w cands movie _) as [tr' [[|]|e]]; reflexivity.
Qed.

Lemma sync_loop_app (before after : list Movie) (present : list string) :
  forall (acc : list Movie) (tr : trace),
    sync_loop w (before ++ after) present acc tr =
    match sync_loop w before present acc tr with
    | (tr1, Ok acc1) => sync_loop w after present acc1 tr1
    | (tr1, Raise e) => (tr1, Raise e)
    end.
Proof.
  induction before as [|movie before IH]; intros acc tr; [reflexivity|].
  change ((movie :: before) ++ after) with (movie :: (before ++ after)).
  rewrite !sync_loop_cons.
  destruct (py_in (imdb_id movie) present); [apply IH|].
  destruct (searchDiscover w tr (title movie)) as [cands|e]; [|reflexivity].
  destruct (scan_discover_results w cands movie _) as [tr' [[|]|e]];
    [apply IH | apply IH | reflexivity].
Qed.

End Convergence.

Lemma NoDup_app_disjoint {A : Type} (l1 l2 : list A) :
  NoDup (l1 ++ l2) -> forall a, In a l1 -> ~ In a l2.
Proof.
  induction l1 as [|x l1 IH]; intros Hnd a Hin1 Hin2; [contradiction|].
  simpl in Hnd. apply NoDup_cons_iff in Hnd as [Hx Hnd].
  destruct Hin1 as [->|Hin1].
  - apply Hx, in_or_app. now right.
  - now apply (IH Hnd a).
Qed.

Section ConvergenceRuns.

Variable w : World.

(** What a completed run of the loop has done: the records it met that were
    not present are split between those it appended to the unsynced list and
    those for which it issued an add, one add each, in order. *)
Lemma sync_loop_accounts (movies : list Movie) (present : list string) :
  forall (acc : list Movie) (tr tr' : trace) (out : list Movie),
    sync_loop w movies present acc tr = (tr', Ok out) ->
    exists ext added unsynced,
      tr' = tr ++ ext /\
      out = acc ++ unsynced /\
      Permutation (added ++ unsynced) (filter (not_present present) movies) /\
      Forall2 (fun movie c => confirms movie c = true) added (added_candidates ext) /\
      searched_titles ext = map title (filter (not_present present) movies).
Proof.
  induction movies as [|movie rest IH]; intros acc tr tr' out Hrun.
  - injection Hrun as <- <-. exists [], [], []. rewrite !app_nil_r.
    repeat split; constructor.
  - rewrite sync_loop_cons in Hrun. cbn [filter].
    replace (not_present present movie) with (negb (py_in (imdb_id movie) present))
      by reflexivity.
    destruct (py_in (imdb_id movie) present); cbn [negb]; [now apply IH in Hrun|].
    destruct (searchDiscover w tr (title movie)) as [cands|e]; [|discriminate].
    destruct (first_confirming movie cands)
      as [Hnone | (before & c & after & -> & Hbefore & Hc)].
    + rewrite scan_discover_results_none in Hrun by assumption.
      apply IH in Hrun as (ext & added & unsynced & -> & -> & Hperm & Hadds & Hs).
      exists ([EvSearch (title movie); EvPrint (searching_line movie);
               EvPrint (not_found_line movie)] ++ ext), added, (movie :: unsynced).
      rewrite <- !app_assoc. repeat split.
      * symmetry. apply Permutation_cons_app. now symmetry.
      * exact Hadds.
      * unfold searched_titles in *. cbn. now rewrite Hs.
    + rewrite scan_discover_results_first in Hrun by assumption.
      destruct (addToWatchlist w _ c); [|discriminate].
      apply IH in Hrun as (ext & added & unsynced & -> & -> & Hperm & Hadds & Hs).
      exists ([EvSearch (title movie); EvPrint (searching_line movie);
               EvPrint (adding_line movie); EvAdd c] ++ ext),
             (movie :: added), unsynced.
      rewrite <- !app_assoc. repeat split.
      * cbn. now constructor.
      * unfold added_candidates in *. cbn. now constructor.
      * unfold searched_titles in *. cbn. now rewrite Hs.
Qed.

(** When neither the search nor the add ever raises, the loop returns. *)
Lemma sync_loop_returns (movies : list Movie) (present : list string) :
  (forall tr query, exists cands, searchDiscover w tr query = Ok cands) ->
  (forall tr c, addToWatchlist w tr c = Ok tt) ->
  forall (acc : list Movie) (tr : trace),
    exists tr' out, sync_loop w movies present acc tr = (tr', Ok out).
Proof.
  intros Hsearch Hadd.
  induction movies as [|movie rest IH]; intros acc tr; [now exists tr, acc|].
  rewrite sync_loop_cons.
  destruct (py_in (imdb_id movie) present); [apply IH|].
  destruct (Hsearch tr (title movie)) as [cands ->].
  destruct (first_confirming movie cands)
    as [Hnone | (before & c & after & -> & Hbefore & Hc)].
  - rewrite scan_discover_results_none by assumption. apply IH.
  - rewrite scan_discover_results_first by assumption. rewrite Hadd. apply IH.
Qed.

End ConvergenceRuns.

(** ** Traces of the phases *)

Section Emits.

Variable P : event -> bool.

Lemma bind_run {A B : Type} (m : M A) (k : A -> M B) (tr : trace) :
  bind m k tr =
  match m tr with
  | (tr1, Ok a) => k a tr1
  | (tr1, Raise e) => (tr1, Raise e)
  end.
Proof. reflexivity. Qed.

Lemma emits_ret {A : Type} (a : A) : emits P (ret a).
Proof. intros tr tr' r [= <- _]. exists []. now rewrite app_nil_r. Qed.

Lemma emits_raise {A : Type} (e : exn) : emits P (@raise A e).
Proof. intros tr tr' r [= <- _]. exists []. now rewrite app_nil_r. Qed.

Lemma emits_lift {A : Type} (x : result A) : emits P (lift x).
Proof. intros tr tr' r [= <- _]. exists []. now rewrite app_nil_r. Qed.

Lemma emits_call {A : Type} (ev : event) (answer : trace -> result A) :
  P ev = true -> emits P (call ev answer).
Proof. intros H tr tr' r [= <- _]. exists [ev]. simpl. now rewrite H. Qed.

Lemma emits_print (line : string) : P (EvPrint line) = true -> emits P (print line).
Proof. intros H tr tr' r [= <- _]. exists [EvPrint line]. simpl. now rewrite H. Qed.

Lemma emits_eprint (line : string) : P (EvStderr line) = true -> emits P (eprint line).
Proof. intros H tr tr' r [= <- _]. exists [EvStderr line]. simpl. now rewrite H. Qed.

Lemma emits_bind {A B : Type} (m : M A) (k : A -> M B) :
  emits P m -> (forall a, emits P (k a)) -> emits P (bind m k).
Proof.
  intros Hm Hk tr tr' r Hrun. rewrite bind_run in Hrun.
  destruct (m tr) as [tr1 [a|e]] eqn:E; apply Hm in E as (ext1 & -> & H1).
  - apply Hk in Hrun as (ext2 & -> & H2). exists (ext1 ++ ext2).
    now rewrite app_assoc, forallb_app, H1, H2.
  - injection Hrun as <- _. now exists ext1.
Qed.

End Emits.

Lemma emits_weaken (P Q : event -> bool) {A : Type} (m : M A) :
  (forall ev, P ev = true -> Q ev = true) -> emits P m -> emits Q m.
Proof.
  intros HPQ Hm tr tr' r Hrun. apply Hm in Hrun as (ext & -> & H).
  exists ext. split; [reflexivity|].
  rewrite forallb_forall in *. auto.
Qed.

Create HintDb emits.

Ltac emits_steps :=
  repeat first
    [ solve [auto with emits nocore]
    | apply emits_ret | apply emits_raise | apply emits_lift
    | apply emits_print; reflexivity | apply emits_eprint; reflexivity
    | apply emits_call; reflexivity
    | apply emits_bind; [|intros]
    | match goal with
      | |- emits _ (if ?b then _ else _) => destruct b
      | p : (_ * _)%type |- emits _ _ => destruct p
      end ].

Section Phases.

Variable w : World.

Lemma print_missing_quiet (names : list string) : emits quiet (print_missing names).
Proof. induction names as [|name names IH]; simpl; emits_steps. Qed.

Hint Resolve print_missing_quiet : emits.

Lemma get_environment_variables_quiet : emits quiet (get_environment_variables w).
Proof.
  unfold get_environment_variables.
  repeat match goal with
         | |- emits _ (match ?x with _ => _ end) => destruct x
         end; emits_steps.
Qed.

Lemma fetch_attempt_quiet (url : string) (remaining : nat) :
  forall attempt, emits quiet (fetch_attempt w url attempt remaining).
Proof.
  induction remaining as [|remaining IH]; intros attempt tr tr' r Hrun;
    simpl in Hrun;
    destruct (requests_get_json w tr url) as [data|[code|msg| |msg]];
    try (injection Hrun as <- _; exists [EvGet url]; split; reflexivity).
  - unfold bind, print, raise in Hrun. injection Hrun as <- _.
    eexists [EvGet url; EvPrint _]. rewrite <- app_assoc. split; reflexivity.
  - rewrite bind_run in Hrun. unfold print at 1 in Hrun.
    apply IH in Hrun as (ext & -> & Hext).
    eexists (EvGet url :: EvPrint _ :: ext). rewrite <- !app_assoc.
    split; [reflexivity|]. exact Hext.
Qed.

Hint Resolve fetch_attempt_quiet : emits.

Lemma get_letterboxd_data_quiet (username : string) :
  emits quiet (get_letterboxd_data w username).
Proof.
  unfold get_letterboxd_data, fetch_with_retry. emits_steps.
Qed.

Lemma scan_discover_results_no_remove (cands : list Item) (movie : Movie) :
  emits no_remove (scan_discover_results w cands movie).
Proof.
  induction cands as [|c cands IH]; simpl; emits_steps.
Qed.

Hint Resolve scan_discover_results_no_remove : emits.

Lemma sync_loop_no_remove (movies : list Movie) (present : list string) :
  forall unsynced, emits no_remove (sync_loop w movies present unsynced).
Proof.
  induction movies as [|movie rest IH]; intros unsynced; simpl; emits_steps.
Qed.

Lemma report_lines_no_remove (unsynced : list Movie) :
  emits no_remove (report_lines unsynced).
Proof. induction unsynced as [|movie rest IH]; simpl; emits_steps. Qed.

Hint Resolve report_lines_no_remove : emits.

Lemma report_no_remove (unsynced : list Movie) : emits no_remove (report unsynced).
Proof. destruct unsynced; simpl; emits_steps. Qed.

End Phases.

#[global] Hint Resolve print_missing_quiet get_environment_variables_quiet
  fetch_attempt_quiet get_letterboxd_data_quiet scan_discover_results_no_remove
  sync_loop_no_remove report_lines_no_remove report_no_remove : emits.

(** ** Orchestrator *)

Section Orchestrator.

Variable w : World.

Lemma process_watchlist_items_quiet (workers as_completed : schedule)
    (items : list Item) (desired watched : list Movie) :
  emits quiet (process_watchlist_items workers as_completed items desired watched).
Proof.
  intros tr tr' r Hrun. rewrite scheduler_value in Hrun. injection Hrun as <- _.
  eexists. split; [reflexivity|].
  induction (workers items) as [|item rest IH]; [reflexivity|].
  cbn [flat_map]. rewrite forallb_app, IH, andb_true_r.
  now destruct (classify item desired watched).
Qed.

Hint Resolve process_watchlist_items_quiet : emits.

Lemma main_prelude_quiet (workers as_completed : schedule) :
  emits quiet (main_prelude w workers as_completed).
Proof.
  unfold main_prelude. emits_steps.
Qed.

Lemma main_converge_no_remove (desired : list Movie) (b : buckets) :
  emits no_remove (main_converge w desired b).
Proof.
  unfold main_converge, sync_watchlist. emits_steps.
Qed.

(** [main] is its first half followed by the bulk remove, when there is
    something to remove, and the convergence. *)
Lemma main_halves (workers as_completed : schedule) (tr : trace) :
  main w workers as_completed tr =
  match main_prelude w workers as_completed tr with
  | (tr1, Raise e) => (tr1, Raise e)
  | (tr1, Ok (desired, b)) =>
      match movies_to_remove b with
      | [] => main_converge w desired b tr1
      | _ :: _ =>
          match removeFromWatchlist w (tr1 ++ [EvPrint clear_line]) (movies_to_remove b) with
          | Raise e =>
              (tr1 ++ [EvPrint clear_line; EvRemove (movies_to_remove b)], Raise e)
          | Ok _ =>
              main_converge w desired b
                (tr1 ++ [EvPrint clear_line; EvRemove (movies_to_remove b);
                         EvPrint done_clear_line])
          end
      end
  end.
Proof.
  unfold main, main_prelude. rewrite !bind_run.
  destruct (get_environment_variables w tr) as [t1 [[[plex_token plex_url] username]|e]];
    [|reflexivity].
  rewrite !bind_run.
  destruct (call (EvAccount plex_token) _ t1) as [t2 [[]|e]]; [|reflexivity].
  rewrite !bind_run.
  destruct (call EvWatchlist (watchlist w) t2) as [t3 [current|e]]; [|reflexivity].
  rewrite !bind_run.
  destruct (print "Getting Letterboxd data" t3) as [t4 [[]|e]]; [|reflexivity].
  rewrite !bind_run.
  destruct (get_letterboxd_data w username t4) as [t5 [[desired watched]|e]];
    [|reflexivity].
  rewrite !bind_run.
  destruct (print "Processing watchlist items" t5) as [t6 [[]|e]]; [|reflexivity].
  rewrite !bind_run. unfold ret.
  destruct (process_watchlist_items workers as_completed current desired watched t6)
    as [t7 [b|e]]; [|reflexivity].
  fold (main_converge w desired b).
  destruct (movies_to_remove b) as [|item items]; [reflexivity|].
  unfold bind at 1 2 3, print at 1, call at 1. fold clear_line.
  destruct (removeFromWatchlist w (t7 ++ [EvPrint clear_line]) (item :: items));
    rewrite <- ?app_assoc; [|reflexivity].
  unfold print. rewrite <- app_assoc. reflexivity.
Qed.

End Orchestrator.

(** ** The place of the bulk remove in a trace *)

Lemma quiet_no_remove (tr : trace) :
  forallb quiet tr = true -> forallb no_remove tr = true.
Proof.
  rewrite !forallb_forall. intros H ev Hin. specialize (H ev Hin).
  now destruct ev.
Qed.

Lemma quiet_no_convergence (tr : trace) :
  forallb quiet tr = true ->
  forallb (fun ev => negb (is_convergence_call ev)) tr = true.
Proof.
  rewrite !forallb_forall. intros H ev Hin. specialize (H ev Hin).
  now destruct ev.
Qed.

Lemma quiet_no_header (tr : trace) :
  forallb quiet tr = true -> ~ In (EvPrint report_header) tr.
Proof.
  rewrite forallb_forall. intros H Hin. specialize (H _ Hin). discriminate H.
Qed.

Lemma no_remove_no_pivot (tr before after : trace) (items : list Item) :
  forallb no_remove tr = true -> tr <> before ++ EvRemove items :: after.
Proof.
  intros H ->. rewrite forallb_app in H. apply andb_prop in H as [_ H].
  discriminate H.
Qed.

Lemma remove_pivot_unique (l1 l2 : trace) (x : list Item) :
  forallb no_remove l1 = true ->
  forallb no_remove l2 = true ->
  forall (l1' l2' : trace) (y : list Item),
    l1 ++ EvRemove x :: l2 = l1' ++ EvRemove y :: l2' ->
    l1' = l1 /\ y = x /\ l2' = l2.
Proof.
  intros H1 H2. induction l1 as [|a l1 IH]; intros l1' l2' y Heq.
  - destruct l1' as [|b l1'].
    + injection Heq as -> ->. auto.
    + injection Heq as _ Heq.
      exfalso. exact (no_remove_no_pivot l2 l1' l2' y H2 Heq).
  - simpl in H1. apply andb_prop in H1 as [Ha H1].
    destruct l1' as [|b l1'].
    + injection Heq as -> _. discriminate Ha.
    + injection Heq as -> Heq.
      destruct (IH H1 _ _ _ Heq) as (-> & -> & ->). auto.
Qed.

(** C10: the identifier extractor is total.  For every string it returns an
    id or [None] and never raises: when ["imdb://"] occurs in the input the
    split on ["://"] has at least two pieces, so the subscript [1] is in
    range, and a split on [">"] always has a first piece. *)
Theorem get_imdb_id_from_guid_never_raises (guid : string) :
  (exists r, get_imdb_id_from_guid guid = Ok r) /\
  (PyStr.contains "imdb://" guid = true ->
   2 <= List.length (PyStr.split guid "://")) /\
  (forall rest, 1 <= List.length (PyStr.split rest ">")).
Proof.
  split; [apply extractor_total|]. split.
  - intros Hin. apply PyStrFacts.split_go_two; [discriminate|].
    now apply PyStrFacts.imdb_marker_has_separator.
  - intros rest. apply PyStrFacts.split_go_nonempty.
Qed.

Lemma get_imdb_id_from_guid_never_raises_witness :
  PyStr.contains "imdb://" "<Guid:imdb://tt0111161>" = true /\
  2 <= List.length (PyStr.split "<Guid:imdb://tt0111161>" "://").
Proof.
  split; [reflexivity|].
  apply (proj1 (proj2 (get_imdb_id_from_guid_never_raises "<Guid:imdb://tt0111161>"))).
  reflexivity.
Defined.

(** C2, as stated, fails: a string that does not begin with ["imdb://"] can
    still yield an id, both for the text the media server prints for an IMDb
    identifier and for an identifier of another namespace that mentions
    ["imdb://"] further on. *)
Lemma extractor_prefix_counterexample :
  (prefix "imdb://" "<Guid:imdb://tt0111161>" = false /\
   get_imdb_id_from_guid "<Guid:imdb://tt0111161>" = Ok (Some "tt0111161")) /\
  (prefix "imdb://" "tmdb://x?ref=imdb://tt1" = false /\
   get_imdb_id_from_guid "tmdb://x?ref=imdb://tt1" = Ok (Some "x?ref=imdb")).
Proof. repeat split; reflexivity. Qed.

(** C2, amended: the extractor returns nothing for every identifier string
    in which ["imdb://"] does not occur anywhere, and returns an id (the text
    between the first ["://"] and the next [">"]) for every string in which it
    occurs. *)
Theorem extractor_recognises_by_occurrence (guid : string) :
  (PyStr.contains "imdb://" guid = false -> get_imdb_id_from_guid guid = Ok None) /\
  (PyStr.contains "imdb://" guid = true ->
   exists rest id tl,
     nth_error (PyStr.split guid "://") 1 = Some rest /\
     PyStr.split rest ">" = id :: tl /\
     get_imdb_id_from_guid guid = Ok (Some id)).
Proof.
  unfold get_imdb_id_from_guid. split; intros Hin; rewrite Hin; [reflexivity|].
  apply PyStrFacts.imdb_marker_has_separator in Hin.
  pose proof (PyStrFacts.split_go_two "://" guid ltac:(discriminate) Hin EmptyString) as H2.
  unfold PyStr.split in *. unfold PyStr.subscript.
  destruct (PyStr.split_go "://" 0 EmptyString guid) as [|p0 [|rest l]];
    simpl in H2; try lia.
  pose proof (PyStrFacts.split_go_nonempty ">" rest 0 EmptyString) as H1.
  exists rest. simpl.
  destruct (PyStr.split_go ">" 0 EmptyString rest) as [|id l']; simpl in H1; try lia.
  exists id, l'. auto.
Qed.

Lemma extractor_recognises_by_occurrence_witness :
  get_imdb_id_from_guid "<Guid:tmdb://278>" = Ok None /\
  exists rest id tl,
    nth_error (PyStr.split "<Guid:imdb://tt0111161>" "://") 1 = Some rest /\
    PyStr.split rest ">" = id :: tl /\
    get_imdb_id_from_guid "<Guid:imdb://tt0111161>" = Ok (Some id).
Proof.
  split.
  - apply (proj1 (extractor_recognises_by_occurrence "<Guid:tmdb://278>")). reflexivity.
  - apply (proj2 (extractor_recognises_by_occurrence "<Guid:imdb://tt0111161>")). reflexivity.
Defined.




(** C4, as stated, fails: an item can carry an id that is in both lists and
    still not be classified [Remove].  The identifiers are tried in order and
    the first id found in either list settles the item: with a first id that
    is desired and not watched the classifier returns [Present] and the second
    identifier, whose id is in both lists, is never read. *)
Lemma later_id_counterexample :
  In "<Guid:imdb://tt0111161>"
     (guids {| item_title := "Double bill";
               guids := ["<Guid:imdb://tt0068646>"; "<Guid:imdb://tt0111161>"] |}) /\
  get_imdb_id_from_guid "<Guid:imdb://tt0111161>" = Ok (Some "tt0111161") /\
  id_listed "tt0111161" [godfather; shawshank] = true /\
  id_listed "tt0111161" [shawshank] = true /\
  process_single_watchlist_item
    {| item_title := "Double bill";
       guids := ["<Guid:imdb://tt0068646>"; "<Guid:imdb://tt0111161>"] |}
    [godfather; shawshank] [shawshank] []
  = ([], Ok (Present "tt0068646")).
Proof. repeat split; try reflexivity. right. now left. Qed.

(** C4, amended: an item whose deciding id (the first non-empty id, in the
    order of its identifiers, that is in the watched or in the desired list)
    is in both the desired list and the watched list is classified [Remove],
    after the worker has printed its line: for each id the watched list is
    checked before the desired list. *)
Theorem watched_takes_priority (item : Item) (desired watched : list Movie) (id : string)
    (tr : trace) :
  deciding_id desired watched (guids item) = Some id ->
  id_listed id desired = true ->
  id_listed id watched = true ->
  process_single_watchlist_item item desired watched tr
  = (tr ++ [EvPrint (watched_line item)], Ok (Remove id item)).
Proof.
  intros Hd _ Hw. unfold process_single_watchlist_item.
  rewrite (scan_item_guids_deciding _ item _ _ id tr Hd). now rewrite Hw.
Qed.

Lemma watched_takes_priority_witness :
  process_single_watchlist_item plex_shawshank [godfather; shawshank] [shawshank] []
  = ([] ++ [EvPrint (watched_line plex_shawshank)],
     Ok (Remove "tt0111161" plex_shawshank)).
Proof.
  apply (watched_takes_priority plex_shawshank [godfather; shawshank] [shawshank]
           "tt0111161" []); reflexivity.
Defined.

(** C5: bucket completeness and exclusivity.  Every item gets exactly one
    outcome, and for every completion order that yields each future once the
    three buckets returned by [process_watchlist_items] have, together, as
    many members as there are current items. *)
Theorem bucket_completeness (workers as_completed : schedule)
    (current_items : list Item) (desired watched : list Movie) (tr : trace) :
  fair as_completed ->
  (forall item,
      exists! o, snd (process_single_watchlist_item item desired watched tr) = Ok o) /\
  exists tr' b,
    process_watchlist_items workers as_completed current_items desired watched tr
    = (tr', Ok b) /\
    List.length (movies_to_remove b) + List.length (already_present b)
    + List.length (movies_to_add_to_letterboxd b) = List.length current_items.
Proof.
  intros Hfair. split.
  - intros item. exists (classify item desired watched). split.
    + now rewrite classifier_value.
    + intros o Ho. rewrite classifier_value in Ho. now injection Ho.
  - rewrite scheduler_value. do 2 eexists. split; [reflexivity|].
    cbn [movies_to_remove already_present movies_to_add_to_letterboxd].
    rewrite outcome_kinds_count, length_map.
    symmetry. apply Permutation_length, Hfair.
Qed.

Lemma bucket_completeness_witness :
  exists tr' b,
    process_watchlist_items submission_order submission_order
      [plex_shawshank; plex_godfather] [godfather] [shawshank] [] = (tr', Ok b) /\
    List.length (movies_to_remove b) + List.length (already_present b)
    + List.length (movies_to_add_to_letterboxd b) = 2.
Proof.
  apply (bucket_completeness submission_order submission_order
           [plex_shawshank; plex_godfather] [godfather] [shawshank] []).
  intros items. apply Permutation_refl.
Defined.

(** C9, as stated, fails: the buckets are filled in completion order, which
    the thread pool decides.  Two runs on the same snapshot, one completing
    in submission order and one in the reverse order, return different
    remove lists. *)
Lemma completion_order_counterexample :
  fair submission_order /\ fair reverse_order /\
  snd (process_watchlist_items submission_order submission_order
         [plex_shawshank; plex_godfather] [] [shawshank; godfather] [])
  = Ok {| movies_to_remove := [plex_shawshank; plex_godfather];
          already_present := []; movies_to_add_to_letterboxd := [] |} /\
  snd (process_watchlist_items submission_order reverse_order
         [plex_shawshank; plex_godfather] [] [shawshank; godfather] [])
  = Ok {| movies_to_remove := [plex_godfather; plex_shawshank];
          already_present := []; movies_to_add_to_letterboxd := [] |} /\
  snd (process_watchlist_items submission_order submission_order
         [plex_shawshank; plex_godfather] [] [shawshank; godfather] [])
  <> snd (process_watchlist_items submission_order reverse_order
            [plex_shawshank; plex_godfather] [] [shawshank; godfather] []).
Proof.
  split; [apply fair_submission_order|].
  split; [apply fair_reverse_order|].
  split; [reflexivity|]. split; [reflexivity|].
  intros H. vm_compute in H. discriminate H.
Qed.

(** C9, amended: two runs of the classification phase on the same desired
    list, watched list and current items return buckets with the same
    members, each as often: each bucket of one run is a permutation of the
    same bucket of the other, and both are the members the classifier sends
    there. *)
Theorem reconciliation_deterministic_up_to_order
    (first_workers second_workers first_run second_run : schedule)
    (current_items : list Item) (desired watched : list Movie)
    (first_trace second_trace : trace) :
  fair first_run -> fair second_run ->
  exists tr1 tr2 b1 b2,
    process_watchlist_items first_workers first_run current_items desired watched
      first_trace = (tr1, Ok b1) /\
    process_watchlist_items second_workers second_run current_items desired watched
      second_trace = (tr2, Ok b2) /\
    Permutation (movies_to_remove b1) (movies_to_remove b2) /\
    Permutation (already_present b1) (already_present b2) /\
    Permutation (movies_to_add_to_letterboxd b1) (movies_to_add_to_letterboxd b2) /\
    Permutation (movies_to_remove b1)
      (removals (map (fun item => classify item desired watched) current_items)).
Proof.
  intros H1 H2. rewrite !scheduler_value. do 4 eexists.
  split; [reflexivity|]. split; [reflexivity|].
  cbn [movies_to_remove already_present movies_to_add_to_letterboxd].
  assert (Hp : Permutation (first_run current_items) (second_run current_items)).
  { eapply Permutation_trans; [symmetry; apply H1 | apply H2]. }
  repeat split; unfold removals, presents, additions;
    apply Permutation_flat_map, Permutation_map;
    solve [exact Hp | symmetry; apply H1].
Qed.

Lemma reconciliation_deterministic_up_to_order_witness :
  exists tr1 tr2 b1 b2,
    process_watchlist_items submission_order submission_order
      [plex_shawshank; plex_godfather] [] [shawshank; godfather] [] = (tr1, Ok b1) /\
    process_watchlist_items reverse_order reverse_order
      [plex_shawshank; plex_godfather] [] [shawshank; godfather] [] = (tr2, Ok b2) /\
    Permutation (movies_to_remove b1) (movies_to_remove b2) /\
    Permutation (already_present b1) (already_present b2) /\
    Permutation (movies_to_add_to_letterboxd b1) (movies_to_add_to_letterboxd b2) /\
    Permutation (movies_to_remove b1)
      (removals (map (fun item => classify item [] [shawshank; godfather])
                     [plex_shawshank; plex_godfather])).
Proof.
  apply (reconciliation_deterministic_up_to_order submission_order reverse_order
           submission_order reverse_order).
  - intros items. apply Permutation_refl.
  - intros items. apply Permutation_rev.
Defined.

(** C1, as stated, fails: [sync_watchlist] catches nothing.  When the search
    for the first of two records raises, the run ends with that exception
    after the one search; the second record is never searched. *)
Lemma search_failure_counterexample :
  sync_watchlist failing_world [shawshank; godfather] [] []
  = ([EvSearch "Shawshank"], Raise (RemoteError "search timed out")) /\
  ~ In (EvSearch "The Godfather")
       (fst (sync_watchlist failing_world [shawshank; godfather] [] [])) /\
  sync_watchlist failing_world [godfather; shawshank] [] []
  = ([EvSearch "The Godfather"; EvPrint "Searching for.. The Godfather";
      EvPrint " - Adding The Godfather to Plex watchlist"; EvAdd plex_godfather],
     Raise (RemoteError "add refused")).
Proof.
  split; [reflexivity|]. split; [|reflexivity].
  vm_compute. intros [H|[]]. discriminate H.
Qed.

(** C1, amended: during convergence a record for which no candidate
    confirms the id does not end the run: it is appended to the unsynced
    list and the loop goes on with the remaining records.  An exception
    raised by the search or by the add for a record is not caught: the run
    ends with it at that call, and no later record is processed. *)
Theorem convergence_failure_semantics (w : World)
    (before : list Movie) (movie : Movie) (after : list Movie)
    (present : list string) (tr tr1 : trace) (unsynced : list Movie) :
  sync_watchlist w before present tr = (tr1, Ok unsynced) ->
  py_in (imdb_id movie) present = false ->
  let searched := tr1 ++ [EvSearch (title movie); EvPrint (searching_line movie)] in
  (forall cands,
      searchDiscover w tr1 (title movie) = Ok cands ->
      forallb (fun c => negb (confirms movie c)) cands = true ->
      sync_watchlist w (before ++ movie :: after) present tr
      = sync_loop w after present (unsynced ++ [movie])
          (searched ++ [EvPrint (not_found_line movie)])) /\
  (forall e,
      searchDiscover w tr1 (title movie) = Raise e ->
      sync_watchlist w (before ++ movie :: after) present tr
      = (tr1 ++ [EvSearch (title movie)], Raise e)) /\
  (forall skipped c others e,
      searchDiscover w tr1 (title movie) = Ok (skipped ++ c :: others) ->
      forallb (fun c => negb (confirms movie c)) skipped = true ->
      confirms movie c = true ->
      addToWatchlist w (searched ++ [EvPrint (adding_line movie)]) c = Raise e ->
      sync_watchlist w (before ++ movie :: after) present tr
      = (searched ++ [EvPrint (adding_line movie); EvAdd c], Raise e)).
Proof.
  intros Hbefore Hnp searched. unfold sync_watchlist in *.
  repeat split; intros; rewrite sync_loop_app, Hbefore, sync_loop_cons, Hnp.
  - rewrite H. rewrite scan_discover_results_none by assumption.
    subst searched. now rewrite <- !app_assoc.
  - now rewrite H.
  - rewrite H. rewrite scan_discover_results_first by assumption.
    fold searched. rewrite H2. subst searched. now rewrite <- !app_assoc.
Qed.

Lemma convergence_failure_semantics_witness :
  sync_watchlist failing_world ([] ++ shawshank :: [godfather]) [] []
  = ([] ++ [EvSearch (title shawshank)], Raise (RemoteError "search timed out")).
Proof.
  apply (convergence_failure_semantics failing_world [] shawshank [godfather] [] [] [] []);
    reflexivity.
Defined.

(** C7: first match wins.  For a record that is processed, the candidates
    are taken in the order the search returned them; for the first one that
    confirms the record's id exactly one add is issued, for that candidate,
    and the candidates after it play no part: the loop moves on to the next
    record.  When no candidate confirms the id no add is issued and the
    record is appended to the unsynced list. *)
Theorem first_match_wins (w : World) (movie : Movie) (rest : list Movie)
    (present : list string) (unsynced : list Movie) (tr : trace) (cands : list Item) :
  py_in (imdb_id movie) present = false ->
  searchDiscover w tr (title movie) = Ok cands ->
  let searched := tr ++ [EvSearch (title movie); EvPrint (searching_line movie)] in
  (forall skipped c others,
      cands = skipped ++ c :: others ->
      forallb (fun c => negb (confirms movie c)) skipped = true ->
      confirms movie c = true ->
      sync_loop w (movie :: rest) present unsynced tr
      = match addToWatchlist w (searched ++ [EvPrint (adding_line movie)]) c with
        | Ok _ =>
            sync_loop w rest present unsynced
              (searched ++ [EvPrint (adding_line movie); EvAdd c])
        | Raise e => (searched ++ [EvPrint (adding_line movie); EvAdd c], Raise e)
        end) /\
  (forallb (fun c => negb (confirms movie c)) cands = true ->
   sync_loop w (movie :: rest) present unsynced tr
   = sync_loop w rest present (unsynced ++ [movie])
       (searched ++ [EvPrint (not_found_line movie)])).
Proof.
  intros Hnp Hsearch searched. split.
  - intros skipped c others -> Hskipped Hc.
    rewrite sync_loop_cons, Hnp, Hsearch.
    rewrite scan_discover_results_first by assumption.
    fold searched. rewrite <- !app_assoc.
    now destruct (addToWatchlist w _ c).
  - intros Hnone. rewrite sync_loop_cons, Hnp, Hsearch.
    now rewrite scan_discover_results_none by assumption.
Qed.

Lemma first_match_wins_witness :
  sync_watchlist sample_world [shawshank] [] []
  = ([EvSearch "Shawshank"; EvPrint "Searching for.. Shawshank";
      EvPrint " - Adding Shawshank to Plex watchlist"; EvAdd plex_shawshank],
     Ok []).
Proof.
  exact (proj1 (first_match_wins sample_world shawshank [] [] [] []
                  [plex_godfather; plex_shawshank] eq_refl eq_refl)
           [plex_godfather] plex_shawshank [] eq_refl eq_refl eq_refl).
Defined.

(** C6: convergence partition.  When [sync_watchlist] returns, the records
    it added (those for which it issued an add, one add each, in order, for a
    candidate confirming the record) and the records it returns as unsynced
    together are exactly the desired records whose id is not in
    [already_present], each of them once; a record whose id is in
    [already_present] is in neither list, and when the desired list has no
    repeated record no record is in both.  The run does return when neither
    the search nor the add raises. *)
Theorem convergence_partition (w : World) (desired : list Movie)
    (present : list string) (tr : trace) :
  ((forall tr query, exists cands, searchDiscover w tr query = Ok cands) ->
   (forall tr c, addToWatchlist w tr c = Ok tt) ->
   exists tr' unsynced, sync_watchlist w desired present tr = (tr', Ok unsynced)) /\
  (forall tr' unsynced,
      sync_watchlist w desired present tr = (tr', Ok unsynced) ->
      exists ext added,
        tr' = tr ++ ext /\
        Forall2 (fun movie c => confirms movie c = true) added (added_candidates ext) /\
        searched_titles ext = map title (filter (not_present present) desired) /\
        Permutation (added ++ unsynced) (filter (not_present present) desired) /\
        (forall movie, In movie added \/ In movie unsynced ->
                       In movie desired /\ py_in (imdb_id movie) present = false) /\
        (NoDup desired -> forall movie, In movie added -> ~ In movie unsynced)).
Proof.
  split.
  - intros Hsearch Hadd. now apply sync_loop_returns.
  - intros tr' unsynced Hrun.
    apply sync_loop_accounts in Hrun
      as (ext & added & unsynced' & -> & Hout & Hperm & Hadds & Hs).
    simpl in Hout. subst unsynced'.
    exists ext, added. repeat split; auto.
    + destruct H as [H|H];
        (eapply Permutation_in in Hperm; [|apply in_or_app; eauto]);
        now apply filter_In in Hperm.
    + destruct H as [H|H];
        (eapply Permutation_in in Hperm; [|apply in_or_app; eauto]);
        apply filter_In in Hperm as [_ Hnp]; unfold not_present in Hnp;
        now destruct (py_in (imdb_id movie) present).
    + intros Hnd. apply NoDup_app_disjoint.
      eapply Permutation_NoDup; [symmetry; exact Hperm|].
      now apply NoDup_filter.
Qed.

Lemma convergence_partition_witness :
  exists ext added,
    [EvSearch "Shawshank"; EvPrint "Searching for.. Shawshank";
     EvPrint " - Adding Shawshank to Plex watchlist"; EvAdd plex_shawshank]
    = [] ++ ext /\
    Forall2 (fun movie c => confirms movie c = true) added (added_candidates ext) /\
    searched_titles ext = map title (filter (not_present ["tt0068646"]) [godfather; shawshank]) /\
    Permutation (added ++ []) (filter (not_present ["tt0068646"]) [godfather; shawshank]) /\
    (forall movie, In movie added \/ In movie [] ->
                   In movie [godfather; shawshank]
                   /\ py_in (imdb_id movie) ["tt0068646"] = false) /\
    (NoDup [godfather; shawshank] -> forall movie, In movie added -> ~ In movie []).
Proof.
  apply (proj2 (convergence_partition sample_world [godfather; shawshank]
                  ["tt0068646"] [])).
  reflexivity.
Defined.

(** C8: when the bulk remove fails the run ends there.  In every run of
    [main], if the call to [removeFromWatchlist] raises, that call is the
    last event of the run and the run ends with its exception: no search and
    no add has been issued, before or after, and no line of the final report
    is printed.  Convergence calls are therefore only ever issued in runs in
    which the bulk remove, if issued, returned. *)
Theorem bulk_remove_failure_is_fatal (w : World) (workers as_completed : schedule)
    (tr : trace) (r : result unit)
    (before : trace) (items : list Item) (after : trace) (e : exn) :
  main w workers as_completed [] = (tr, r) ->
  tr = before ++ EvRemove items :: after ->
  removeFromWatchlist w before items = Raise e ->
  after = [] /\ r = Raise e /\
  forallb (fun ev => negb (is_convergence_call ev)) tr = true /\
  ~ In (EvPrint report_header) tr.
Proof.
  intros Hrun Htr Hfail. rewrite main_halves in Hrun.
  destruct (main_prelude w workers as_completed []) as [tr1 [[desired b]|e0]] eqn:E;
    apply main_prelude_quiet in E as (pre & -> & Hq); simpl app in *.
  - destruct (movies_to_remove b) as [|item items0].
    + apply main_converge_no_remove in Hrun as (ext & -> & Hext).
      exfalso. eapply no_remove_no_pivot; [|exact Htr].
      now rewrite forallb_app, (quiet_no_remove _ Hq), Hext.
    + assert (Hpre : forallb no_remove (pre ++ [EvPrint clear_line]) = true).
      { now rewrite forallb_app, (quiet_no_remove _ Hq). }
      destruct (removeFromWatchlist w (pre ++ [EvPrint clear_line]) (item :: items0))
        as [[]|e0] eqn:R.
      * apply main_converge_no_remove in Hrun as (ext & -> & Hext).
        exfalso.
        assert (Hpost : forallb no_remove (EvPrint done_clear_line :: ext) = true)
          by exact Hext.
        replace ((pre ++ [EvPrint clear_line; EvRemove (item :: items0);
                          EvPrint done_clear_line]) ++ ext)
          with ((pre ++ [EvPrint clear_line])
                ++ EvRemove (item :: items0) :: (EvPrint done_clear_line :: ext))
          in Htr by (now rewrite <- !app_assoc).
        destruct (remove_pivot_unique _ _ _ Hpre Hpost _ _ _ Htr) as (-> & -> & _).
        congruence.
      * injection Hrun as <- <-.
        replace (pre ++ [EvPrint clear_line; EvRemove (item :: items0)])
          with ((pre ++ [EvPrint clear_line]) ++ EvRemove (item :: items0) :: [])
          in * by (now rewrite <- !app_assoc).
        destruct (remove_pivot_unique (pre ++ [EvPrint clear_line]) []
                    (item :: items0) Hpre eq_refl _ _ _ Htr) as (-> & -> & ->).
        assert (Hq' : forallb quiet (pre ++ [EvPrint clear_line]) = true).
        { now rewrite forallb_app, Hq. }
        repeat split; [congruence | |].
        -- rewrite forallb_app, (quiet_no_convergence _ Hq'). reflexivity.
        -- intros Hin. apply in_app_or in Hin as [Hin|[Hin|[]]].
           ++ now apply (quiet_no_header _ Hq').
           ++ discriminate Hin.
  - injection Hrun as <- _. exfalso.
    eapply no_remove_no_pivot; [|exact Htr]. now apply quiet_no_remove.
Qed.

Lemma bulk_remove_failure_is_fatal_witness :
  main failing_world submission_order submission_order []
  = (trace_before_remove ++ EvRemove [plex_shawshank] :: [],
     Raise (RemoteError "remove refused")) /\
  forallb (fun ev => negb (is_convergence_call ev))
    (trace_before_remove ++ EvRemove [plex_shawshank] :: []) = true /\
  ~ In (EvPrint report_header) (trace_before_remove ++ EvRemove [plex_shawshank] :: []).
Proof.
  split; [reflexivity|].
  apply (bulk_remove_failure_is_fatal failing_world submission_order submission_order
           (trace_before_remove ++ EvRemove [plex_shawshank] :: [])
           (Raise (RemoteError "remove refused"))
           trace_before_remove [plex_shawshank] [] (RemoteError "remove refused"));
    reflexivity.
Defined.

(** * Further properties *)

(** ** Pieces of a split *)

Module PyStrPieces.
Import PyStr PyStrFacts.

Lemma prefix_app_true (sep a s : string) :
  prefix sep a = true -> prefix sep (a ++ s) = true.
Proof.
  intros H. apply prefix_split in H as [rest ->].
  apply prefix_split. exists (rest ++ s)%string. apply append_assoc.
Qed.

Lemma contains_empty (sep : string) :
  sep <> EmptyString -> contains sep EmptyString = false.
Proof. intros H. destruct sep; [congruence | reflexivity]. Qed.

Lemma unstarted_clean (sep : string) (s : string) (cur : string) :
  sep <> EmptyString -> unstarted sep cur s = true -> contains sep cur = false.
Proof.
  intros Hsep. induction cur as [|a cur IH]; intros H.
  - now apply contains_empty.
  - cbn [unstarted] in H. apply andb_prop in H as [Hp H].
    rewrite contains_unfold. destruct (prefix sep (String a cur)) eqn:E.
    + apply (prefix_app_true _ _ s) in E. rewrite E in Hp. discriminate Hp.
    + now apply IH.
Qed.

Lemma unstarted_step (sep : string) (c : ascii) (s : string) (cur : string) :
  unstarted sep cur (String c s) = true ->
  prefix sep (String c s) = false ->
  unstarted sep (cur ++ String c EmptyString) s = true.
Proof.
  intros H Hp. induction cur as [|a cur IH].
  - change (negb (prefix sep (String c s)) && true = true). now rewrite Hp.
  - cbn [unstarted append] in *. apply andb_prop in H as [Ha H].
    rewrite append_assoc. cbn [append]. rewrite Ha. now apply IH.
Qed.

(** No piece of a split holds the separator. *)
Lemma split_go_pieces_clean (sep : string) (s : string) :
  sep <> EmptyString ->
  forall skip cur,
    (skip = 0 -> unstarted sep cur s = true) ->
    (skip <> 0 -> cur = EmptyString) ->
    Forall (fun piece => contains sep piece = false) (split_go sep skip cur s).
Proof.
  intros Hsep. induction s as [|c s IH]; intros skip cur H0 H1.
  - cbn. constructor; [|constructor]. destruct skip.
    + exact (unstarted_clean sep EmptyString cur Hsep (H0 eq_refl)).
    + rewrite H1 by discriminate. now apply contains_empty.
  - rewrite split_go_unfold. destruct skip as [|k].
    + specialize (H0 eq_refl). destruct (prefix sep (String c s)) eqn:Hp.
      * constructor; [exact (unstarted_clean sep (String c s) cur Hsep H0)|].
        apply IH; [reflexivity | reflexivity].
      * apply IH; [intros _; now apply unstarted_step | congruence].
    + rewrite H1 by discriminate. apply IH; [reflexivity | reflexivity].
Qed.

Lemma split_pieces_clean (s sep : string) :
  sep <> EmptyString ->
  Forall (fun piece => contains sep piece = false) (split s sep).
Proof.
  intros Hsep. apply split_go_pieces_clean; [assumption|reflexivity|congruence].
Qed.

(** The first piece is a prefix of the text. *)
Lemma split_go_head_prefix (sep : string) (s : string) :
  forall cur, exists y z tl,
    split_go sep 0 cur s = (cur ++ y)%string :: tl /\ s = (y ++ z)%string.
Proof.
  induction s as [|c s IH]; intros cur.
  - exists EmptyString, EmptyString, []. simpl. now rewrite append_empty_r.
  - rewrite split_go_unfold. destruct (prefix sep (String c s)).
    + eexists EmptyString, (String c s), _. now rewrite append_empty_r.
    + destruct (IH (cur ++ String c EmptyString)%string) as (y & z & tl & -> & ->).
      exists (String c y), z, tl. now rewrite append_assoc.
Qed.

Lemma contains_app_false (sep a b : string) :
  contains sep (a ++ b) = false -> contains sep a = false.
Proof.
  intros H. destruct (contains sep a) eqn:E; [|reflexivity].
  apply contains_occurrence in E as (x & y & ->).
  assert (contains sep ((x ++ sep ++ y) ++ b) = true) as H'.
  { apply contains_occurrence. exists x, (y ++ b)%string.
    now rewrite !append_assoc. }
  congruence.
Qed.

End PyStrPieces.

(** ** Identifier extractor *)

(** X1: the ids the extractor can return are exactly the strings that hold
    neither ["://"] nor [">"].  Whatever it returns holds neither delimiter,
    and every such string [v] is read back from the text the media server
    prints for it, ["<Guid:imdb://" ++ v ++ ">"]. *)
Theorem extracted_ids_are_the_clean_strings :
  (forall guid id, get_imdb_id_from_guid guid = Ok (Some id) -> clean_id id = true) /\
  (forall v, clean_id v = true ->
             get_imdb_id_from_guid ("<Guid:imdb://" ++ v ++ ">") = Ok (Some v)).
Proof.
  split.
  - intros guid id H. unfold get_imdb_id_from_guid in H.
    destruct (PyStr.contains "imdb://" guid); [|discriminate].
    pose proof (PyStrPieces.split_pieces_clean guid "://" ltac:(discriminate)) as Hc.
    unfold PyStr.subscript in H.
    destruct (PyStr.split guid "://") as [|p0 [|rest l]]; try discriminate.
    apply Forall_inv_tail, Forall_inv in Hc. cbn in H.
    pose proof (PyStrPieces.split_pieces_clean rest ">" ltac:(discriminate)) as Hg.
    unfold PyStr.split in *.
    destruct (PyStrPieces.split_go_head_prefix ">" rest EmptyString)
      as (y & z & tl & Hy & ->).
    rewrite Hy in *. cbn in H. injection H as <-.
    apply Forall_inv in Hg. cbn in Hg.
    apply PyStrPieces.contains_app_false in Hc.
    unfold clean_id. now rewrite Hc, Hg.
  - intros v H. unfold clean_id in H. apply andb_prop in H as [H1 H2].
    apply negb_true_iff in H1, H2.
    exact (extractor_delimited "<Guid:" v "" eq_refl H1 H2).
Qed.

Lemma extracted_ids_are_the_clean_strings_witness :
  clean_id "tt0111161" = true /\
  get_imdb_id_from_guid ("<Guid:imdb://" ++ "tt0111161" ++ ">") = Ok (Some "tt0111161").
Proof.
  split.
  - apply (proj1 extracted_ids_are_the_clean_strings "imdb://tt0111161>extra" "tt0111161").
    reflexivity.
  - apply (proj2 extracted_ids_are_the_clean_strings "tt0111161"). reflexivity.
Defined.

(** ** Item classifier *)

Lemma scan_item_guids_sound (gs : list string) (item : Item)
    (desired watched : list Movie) (o : outcome) (tr tr' : trace) :
  scan_item_guids gs false item desired watched tr = (tr', Ok o) ->
  match o with
  | Remove id it =>
      it = item /\ id_listed id watched = true /\ PyStr.truthy id = true /\
      exists guid, In guid gs /\ get_imdb_id_from_guid guid = Ok (Some id)
  | Present id =>
      id_listed id desired = true /\ id_listed id watched = false /\
      PyStr.truthy id = true /\
      exists guid, In guid gs /\ get_imdb_id_from_guid guid = Ok (Some id)
  | Add it => it = item
  end.
Proof.
  induction gs as [|guid gs IH]; intros H.
  - injection H as _ <-. reflexivity.
  - rewrite scan_item_guids_cons in H.
    assert (Hrest : scan_item_guids gs false item desired watched tr = (tr', Ok o) ->
                    match o with
                    | Remove id it =>
                        it = item /\ id_listed id watched = true /\
                        PyStr.truthy id = true /\
                        exists g, In g (guid :: gs) /\
                                  get_imdb_id_from_guid g = Ok (Some id)
                    | Present id =>
                        id_listed id desired = true /\ id_listed id watched = false /\
                        PyStr.truthy id = true /\
                        exists g, In g (guid :: gs) /\
                                  get_imdb_id_from_guid g = Ok (Some id)
                    | Add it => it = item
                    end).
    { intros H'. apply IH in H'. destruct o as [id it|id|it]; [| |exact H'].
      - destruct H' as (? & ? & ? & g & ? & ?). repeat split; auto.
        exists g. split; [now right | assumption].
      - destruct H' as (? & ? & ? & g & ? & ?). repeat split; auto.
        exists g. split; [now right | assumption]. }
    pose proof (extractor_value guid) as Hg.
    destruct (extract guid) as [id|]; [|exact (Hrest H)].
    destruct (PyStr.truthy id) eqn:Ht; cbn [negb] in H; [|exact (Hrest H)].
    destruct (id_listed id watched) eqn:Hw.
    + injection H as _ <-. repeat split; auto. exists guid. split; [now left | assumption].
    + destruct (id_listed id desired) eqn:Hd; [|exact (Hrest H)].
      injection H as _ <-. repeat split; auto. exists guid. split; [now left | assumption].
Qed.

Lemma scan_item_guids_add (gs : list string) (item : Item)
    (desired watched : list Movie) (tr : trace) :
  scan_item_guids gs false item desired watched tr = (tr, Ok (Add item)) <->
  (forall guid id,
      In guid gs -> get_imdb_id_from_guid guid = Ok (Some id) ->
      PyStr.truthy id = true ->
      id_listed id watched = false /\ id_listed id desired = false).
Proof.
  induction gs as [|guid gs IH].
  - split; [intros _ guid id [] | reflexivity].
  - rewrite scan_item_guids_cons. pose proof (extractor_value guid) as Hg.
    destruct (extract guid) as [id|].
    + destruct (PyStr.truthy id) eqn:Ht; cbn [negb].
      * destruct (id_listed id watched) eqn:Hw.
        { split; [discriminate|]. intros H.
          destruct (H guid id (or_introl eq_refl) Hg Ht). congruence. }
        destruct (id_listed id desired) eqn:Hd.
        { split; [discriminate|]. intros H.
          destruct (H guid id (or_introl eq_refl) Hg Ht). congruence. }
        rewrite IH. split; intros H g i Hin Hgi Hti.
        -- destruct Hin as [<-|Hin]; [|eauto].
           rewrite Hg in Hgi. injection Hgi as <-. auto.
        -- apply (H g i); auto. now right.
      * rewrite IH. split; intros H g i Hin Hgi Hti.
        -- destruct Hin as [<-|Hin]; [|eauto].
           rewrite Hg in Hgi. injection Hgi as <-. congruence.
        -- apply (H g i); auto. now right.
    + rewrite IH. split; intros H g i Hin Hgi Hti.
      * destruct Hin as [<-|Hin]; [|eauto]. congruence.
      * apply (H g i); auto. now right.
Qed.

Lemma id_listed_ids (id : string) (movies : list Movie) :
  id_listed id movies = existsb (String.eqb id) (map imdb_id movies).
Proof.
  unfold id_listed. induction movies as [|m movies IH]; [reflexivity|].
  simpl. now rewrite IH.
Qed.

(** X2: what the classifier returns is justified by the lists.  [Remove]
    carries the item itself and a non-empty id, read from one of the item's
    identifiers, that is in the watched list, and comes with the one line the
    worker prints; [Present] carries such an id that is in the desired list
    and not in the watched list; [Add] carries the item itself; neither of
    the two prints anything. *)
Theorem classifier_outcome_is_justified (item : Item) (desired watched : list Movie)
    (o : outcome) (tr tr' : trace) :
  process_single_watchlist_item item desired watched tr = (tr', Ok o) ->
  match o with
  | Remove id it =>
      tr' = tr ++ [EvPrint (watched_line item)] /\
      it = item /\ id_listed id watched = true /\ PyStr.truthy id = true /\
      exists guid, In guid (guids item) /\ get_imdb_id_from_guid guid = Ok (Some id)
  | Present id =>
      tr' = tr /\
      id_listed id desired = true /\ id_listed id watched = false /\
      PyStr.truthy id = true /\
      exists guid, In guid (guids item) /\ get_imdb_id_from_guid guid = Ok (Some id)
  | Add it => tr' = tr /\ it = item
  end.
Proof.
  intros H. pose proof (scan_item_guids_sound _ _ _ _ _ _ _ H) as Hs.
  rewrite classifier_value in H. injection H as <- <-.
  destruct (classify item desired watched) as [id it|id|it]; cbn [worker_lines].
  - split; [|exact Hs]. destruct Hs as [-> _]. reflexivity.
  - split; [|exact Hs]. apply app_nil_r.
  - split; [|exact Hs]. apply app_nil_r.
Qed.

Lemma classifier_outcome_is_justified_witness :
  @nil event = [] /\
  id_listed "tt0068646" [godfather] = true /\
  id_listed "tt0068646" [shawshank] = false /\
  PyStr.truthy "tt0068646" = true /\
  exists guid, In guid (guids plex_godfather) /\
               get_imdb_id_from_guid guid = Ok (Some "tt0068646").
Proof.
  apply (classifier_outcome_is_justified plex_godfather [godfather] [shawshank]
           (Present "tt0068646") [] []).
  reflexivity.
Defined.

(** X3: an item is classified [Add] exactly when none of the non-empty ids
    read from its identifiers is in the watched list or in the desired list;
    in particular an item with no decodable identifier, or whose only ids are
    empty, is classified [Add] whatever the lists hold. *)
Theorem classified_add_iff_no_listed_id (item : Item) (desired watched : list Movie)
    (tr : trace) :
  process_single_watchlist_item item desired watched tr = (tr, Ok (Add item)) <->
  (forall guid id,
      In guid (guids item) -> get_imdb_id_from_guid guid = Ok (Some id) ->
      PyStr.truthy id = true ->
      id_listed id watched = false /\ id_listed id desired = false).
Proof. apply scan_item_guids_add. Qed.

Lemma classified_add_iff_no_listed_id_witness :
  process_single_watchlist_item
    {| item_title := "No id"; guids := ["<Guid:imdb://>"; "<Guid:tvdb://123>"] |}
    [{| title := "Blank"; imdb_id := "" |}] [{| title := "Blank"; imdb_id := "" |}] []
  = ([], Ok (Add {| item_title := "No id";
                    guids := ["<Guid:imdb://>"; "<Guid:tvdb://123>"] |})).
Proof.
  apply (proj2 (classified_add_iff_no_listed_id
                  {| item_title := "No id";
                     guids := ["<Guid:imdb://>"; "<Guid:tvdb://123>"] |}
                  [{| title := "Blank"; imdb_id := "" |}]
                  [{| title := "Blank"; imdb_id := "" |}] [])).
  intros guid id [<-|[<-|[]]] Hg Ht.
  - vm_compute in Hg. injection Hg as <-. discriminate Ht.
  - vm_compute in Hg. discriminate Hg.
Defined.

(** X4: titles play no part in the classification.  Two pairs of lists with
    the same ids in the same order, whatever their titles, give every item
    the same outcome. *)
Theorem classification_ignores_titles (item : Item)
    (desired watched desired' watched' : list Movie) (tr : trace) :
  map imdb_id desired = map imdb_id desired' ->
  map imdb_id watched = map imdb_id watched' ->
  process_single_watchlist_item item desired watched tr
  = process_single_watchlist_item item desired' watched' tr.
Proof.
  intros Hd Hw. unfold process_single_watchlist_item.
  induction (guids item) as [|guid gs IH]; [reflexivity|].
  rewrite !scan_item_guids_cons, IH.
  destruct (extract guid) as [id|]; [|reflexivity].
  now rewrite !id_listed_ids, Hd, Hw.
Qed.

Lemma classification_ignores_titles_witness :
  process_single_watchlist_item plex_shawshank [godfather] [shawshank] []
  = process_single_watchlist_item plex_shawshank
      [{| title := "Il padrino"; imdb_id := "tt0068646" |}]
      [{| title := "Les Evades"; imdb_id := "tt0111161" |}] [].
Proof.
  apply (classification_ignores_titles plex_shawshank [godfather] [shawshank]
           [{| title := "Il padrino"; imdb_id := "tt0068646" |}]
           [{| title := "Les Evades"; imdb_id := "tt0111161" |}] []);
    reflexivity.
Defined.

(** ** Reconciliation scheduler *)

Lemma in_removals (it : Item) (os : list outcome) :
  In it (removals os) <-> exists id, In (Remove id it) os.
Proof.
  unfold removals. rewrite in_flat_map. split.
  - intros ([id i| |] & Hin & H); simpl in H; try contradiction.
    destruct H as [<-|[]]. now exists id.
  - intros [id Hin]. exists (Remove id it). split; [assumption | now left].
Qed.

Lemma in_presents (id : string) (os : list outcome) :
  In id (presents os) <-> In (Present id) os.
Proof.
  unfold presents. rewrite in_flat_map. split.
  - intros ([| i |] & Hin & H); simpl in H; try contradiction.
    now destruct H as [<-|[]].
  - intros Hin. exists (Present id). split; [assumption | now left].
Qed.

Lemma in_additions (it : Item) (os : list outcome) :
  In it (additions os) <-> In (Add it) os.
Proof.
  unfold additions. rewrite in_flat_map. split.
  - intros ([| | i] & Hin & H); simpl in H; try contradiction.
    now destruct H as [<-|[]].
  - intros Hin. exists (Add it). split; [assumption | now left].
Qed.

Lemma task_result_sound (item : Item) (desired watched : list Movie) (o : outcome) :
  task_result item desired watched = Ok o ->
  match o with
  | Remove id it =>
      it = item /\ id_listed id watched = true /\ PyStr.truthy id = true /\
      exists guid, In guid (guids item) /\ get_imdb_id_from_guid guid = Ok (Some id)
  | Present id =>
      id_listed id desired = true /\ id_listed id watched = false /\
      PyStr.truthy id = true /\
      exists guid, In guid (guids item) /\ get_imdb_id_from_guid guid = Ok (Some id)
  | Add it => it = item
  end.
Proof.
  unfold task_result.
  destruct (process_single_watchlist_item item desired watched []) as [t r] eqn:E.
  cbn [snd]. intros ->. exact (scan_item_guids_sound _ _ _ _ _ _ _ E).
Qed.

Lemma in_classified (as_completed : schedule) (items : list Item)
    (desired watched : list Movie) (o : outcome) :
  fair as_completed ->
  In o (map (fun item => classify item desired watched) (as_completed items)) <->
  exists item, In item items /\ task_result item desired watched = Ok o.
Proof.
  intros Hfair. rewrite in_map_iff. split.
  - intros (item & <- & Hin). exists item. split.
    + eapply Permutation_in; [symmetry; apply Hfair | exact Hin].
    + apply task_result_value.
  - intros (item & Hin & Ho). exists item. split.
    + rewrite task_result_value in Ho. now injection Ho.
    + eapply Permutation_in; [apply Hfair | exact Hin].
Qed.


(** X5: nothing is lost or misrouted by the scheduler.  Whatever the
    completion order, an item is in the remove bucket exactly when it is a
    current item classified [Remove], an id is in the present bucket exactly
    when some current item is classified [Present] with it, and an item is in
    the add bucket exactly when it is a current item classified [Add]. *)
Theorem buckets_hold_what_was_classified (workers as_completed : schedule)
    (current_items : list Item) (desired watched : list Movie) (b : buckets)
    (tr tr' : trace) :
  fair as_completed ->
  process_watchlist_items workers as_completed current_items desired watched tr
  = (tr', Ok b) ->
  (forall item,
      In item (movies_to_remove b) <->
      In item current_items /\
      exists id, task_result item desired watched = Ok (Remove id item)) /\
  (forall id,
      In id (already_present b) <->
      exists item, In item current_items /\
                   task_result item desired watched = Ok (Present id)) /\
  (forall item,
      In item (movies_to_add_to_letterboxd b) <->
      In item current_items /\
      task_result item desired watched = Ok (Add item)).
Proof.
  intros Hfair Hrun. rewrite scheduler_value in Hrun. injection Hrun as _ <-.
  cbn [movies_to_remove already_present movies_to_add_to_letterboxd].
  split; [|split]; intros x; split.
  - intros Hin. apply in_removals in Hin as [id Hin].
    apply (in_classified _ _ _ _ _ Hfair) in Hin as (it & Hit & Ho).
    pose proof (task_result_sound _ _ _ _ Ho) as [-> _].
    split; [assumption | now exists id].
  - intros [Hin [id Ho]]. apply in_removals. exists id.
    apply (in_classified _ _ _ _ _ Hfair). now exists x.
  - intros Hin. apply in_presents in Hin.
    now apply (in_classified _ _ _ _ _ Hfair) in Hin.
  - intros Hex. apply in_presents. now apply (in_classified _ _ _ _ _ Hfair).
  - intros Hin. apply in_additions in Hin.
    apply (in_classified _ _ _ _ _ Hfair) in Hin as (it & Hit & Ho).
    pose proof (task_result_sound _ _ _ _ Ho) as ->.
    split; assumption.
  - intros [Hin Ho]. apply in_additions.
    apply (in_classified _ _ _ _ _ Hfair). now exists x.
Qed.

Lemma buckets_hold_what_was_classified_witness :
  (forall item,
      In item [plex_shawshank] <->
      In item [plex_godfather; plex_shawshank] /\
      exists id, task_result item [godfather] [shawshank] = Ok (Remove id item)) /\
  (forall id,
      In id ["tt0068646"] <->
      exists item, In item [plex_godfather; plex_shawshank] /\
                   task_result item [godfather] [shawshank] = Ok (Present id)) /\
  (forall item,
      In item [] <->
      In item [plex_godfather; plex_shawshank] /\
      task_result item [godfather] [shawshank] = Ok (Add item)).
Proof.
  apply (buckets_hold_what_was_classified submission_order reverse_order
           [plex_godfather; plex_shawshank] [godfather] [shawshank]
           {| movies_to_remove := [plex_shawshank];
              already_present := ["tt0068646"];
              movies_to_add_to_letterboxd := [] |}
           [] [EvPrint (watched_line plex_shawshank)]).
  - intros items. apply Permutation_rev.
  - reflexivity.
Defined.



(** ** Convergence driver *)

Section ConvergenceExtras.

Variable w : World.

Lemma sync_loop_all_present (movies : list Movie) (present : list string) :
  forallb (fun movie => py_in (imdb_id movie) present) movies = true ->
  forall acc tr, sync_loop w movies present acc tr = (tr, Ok acc).
Proof.
  induction movies as [|movie rest IH]; intros H acc tr; [reflexivity|].
  simpl in H. apply andb_prop in H as [Hm H].
  rewrite sync_loop_cons, Hm. now apply IH.
Qed.

(** Every run of the loop, also one that ends in an exception. *)
Lemma sync_loop_conduct (movies : list Movie) (present : list string) :
  forall (acc : list Movie) (tr tr' : trace) (r : result (list Movie)),
    sync_loop w movies present acc tr = (tr', r) ->
    exists ext,
      tr' = tr ++ ext /\
      forallb convergence_event ext = true /\
      (exists rest,
          map title (filter (not_present present) movies) = searched_titles ext ++ rest) /\
      (forall c, In c (added_candidates ext) ->
                 exists movie, In movie movies /\
                               py_in (imdb_id movie) present = false /\
                               confirms movie c = true) /\
      List.length (added_candidates ext) <= List.length (searched_titles ext).
Proof.
  induction movies as [|movie rest IH]; intros acc tr tr' r Hrun.
  - injection Hrun as <- _. exists []. rewrite app_nil_r.
    repeat split; [now exists [] | intros c [] | apply le_n].
  - rewrite sync_loop_cons in Hrun. cbn [filter].
    replace (not_present present movie) with (negb (py_in (imdb_id movie) present))
      by reflexivity.
    destruct (py_in (imdb_id movie) present) eqn:Hnp; cbn [negb].
    { apply IH in Hrun as (ext & -> & Hev & Hs & Ha & Hl).
      exists ext. repeat split; auto.
      intros c Hc. destruct (Ha c Hc) as (m & Hm & H1 & H2).
      exists m. repeat split; auto. now right. }
    destruct (searchDiscover w tr (title movie)) as [cands|e].
    2:{ injection Hrun as <- _. exists [EvSearch (title movie)].
        repeat split; [now eexists | intros c [] | cbn; lia]. }
    destruct (first_confirming movie cands)
      as [Hnone | (before & c & after & -> & Hbefore & Hc)].
    + rewrite scan_discover_results_none in Hrun by assumption.
      apply IH in Hrun as (ext & -> & Hev & [rest' Hs] & Ha & Hl).
      exists ([EvSearch (title movie); EvPrint (searching_line movie);
               EvPrint (not_found_line movie)] ++ ext).
      rewrite <- !app_assoc. split; [reflexivity|].
      split; [exact Hev|]. split; [|split].
      * exists rest'. cbn. now rewrite Hs.
      * intros c Hc. destruct (Ha c Hc) as (m & Hm & H1 & H2).
        exists m. repeat split; auto. now right.
      * unfold added_candidates, searched_titles in *. cbn. lia.
    + rewrite scan_discover_results_first in Hrun by assumption.
      destruct (addToWatchlist w _ c).
      * apply IH in Hrun as (ext & -> & Hev & [rest' Hs] & Ha & Hl).
        exists ([EvSearch (title movie); EvPrint (searching_line movie);
                 EvPrint (adding_line movie); EvAdd c] ++ ext).
        rewrite <- !app_assoc. split; [reflexivity|].
        split; [exact Hev|]. split; [|split].
        -- exists rest'. cbn. now rewrite Hs.
        -- intros c' [<-|Hc'].
           ++ exists movie. repeat split; auto. now left.
           ++ destruct (Ha c' Hc') as (m & Hm & H1 & H2).
              exists m. repeat split; auto. now right.
        -- unfold added_candidates, searched_titles in *. cbn. lia.
      * injection Hrun as <- _.
        exists [EvSearch (title movie); EvPrint (searching_line movie);
                EvPrint (adding_line movie); EvAdd c].
        rewrite <- !app_assoc. split; [reflexivity|].
        split; [reflexivity|]. split; [|split].
        -- now eexists.
        -- intros c' [<-|[]]. exists movie. repeat split; auto. now left.
        -- cbn. lia.
Qed.

Lemma sync_loop_keeps_order (movies : list Movie) (present : list string) :
  forall (acc : list Movie) (tr tr' : trace) (out : list Movie),
    sync_loop w movies present acc tr = (tr', Ok out) ->
    exists unsynced,
      out = acc ++ unsynced /\
      subsequence unsynced (filter (not_present present) movies).
Proof.
  induction movies as [|movie rest IH]; intros acc tr tr' out Hrun.
  - injection Hrun as _ <-. exists []. rewrite app_nil_r. split; constructor.
  - rewrite sync_loop_cons in Hrun. cbn [filter].
    replace (not_present present movie) with (negb (py_in (imdb_id movie) present))
      by reflexivity.
    destruct (py_in (imdb_id movie) present); cbn [negb]; [now apply IH in Hrun|].
    destruct (searchDiscover w tr (title movie)) as [cands|e]; [|discriminate].
    destruct (scan_discover_results w cands movie _) as [tr1 [[|]|e]];
      [| |discriminate].
    + apply IH in Hrun as (unsynced & -> & Hsub).
      exists unsynced. split; [reflexivity | now constructor].
    + apply IH in Hrun as (unsynced & -> & Hsub).
      exists (movie :: unsynced). rewrite <- app_assoc.
      split; [reflexivity | now constructor].
Qed.

End ConvergenceExtras.

(** X6: records that are already present cost nothing.  When the id of
    every desired record is in [already_present], and so for an empty desired
    list, [sync_watchlist] issues no search and no add, prints nothing and
    returns the empty list. *)
Theorem nothing_to_converge (w : World) (desired : list Movie)
    (present : list string) (tr : trace) :
  forallb (fun movie => py_in (imdb_id movie) present) desired = true ->
  sync_watchlist w desired present tr = (tr, Ok []).
Proof. intros H. now apply sync_loop_all_present. Qed.

Lemma nothing_to_converge_witness :
  sync_watchlist failing_world [shawshank; godfather] ["tt0068646"; "tt0111161"] []
  = ([], Ok []).
Proof.
  apply (nothing_to_converge failing_world [shawshank; godfather]
           ["tt0068646"; "tt0111161"] []).
  reflexivity.
Defined.

(** X7: what the convergence driver does in any run, also one that an
    exception ends.  It only searches, adds and prints; the titles it
    searches are, in order, the titles of the first so many desired records
    that are not already present; every candidate it adds confirms the id of
    a desired record that is not already present; and it never issues more
    adds than searches. *)
Theorem convergence_conduct (w : World) (desired : list Movie)
    (present : list string) (tr tr' : trace) (r : result (list Movie)) :
  sync_watchlist w desired present tr = (tr', r) ->
  exists ext,
    tr' = tr ++ ext /\
    forallb convergence_event ext = true /\
    (exists rest,
        map title (filter (not_present present) desired) = searched_titles ext ++ rest) /\
    (forall c, In c (added_candidates ext) ->
               exists movie, In movie desired /\
                             py_in (imdb_id movie) present = false /\
                             confirms movie c = true) /\
    List.length (added_candidates ext) <= List.length (searched_titles ext).
Proof. apply sync_loop_conduct. Qed.

Lemma convergence_conduct_witness :
  exists ext,
    [EvSearch "The Godfather"; EvPrint "Searching for.. The Godfather";
     EvPrint " - Adding The Godfather to Plex watchlist"; EvAdd plex_godfather]
    = [] ++ ext /\
    forallb convergence_event ext = true /\
    (exists rest,
        map title (filter (not_present []) [godfather; shawshank])
        = searched_titles ext ++ rest) /\
    (forall c, In c (added_candidates ext) ->
               exists movie, In movie [godfather; shawshank] /\
                             py_in (imdb_id movie) [] = false /\
                             confirms movie c = true) /\
    List.length (added_candidates ext) <= List.length (searched_titles ext).
Proof.
  apply (convergence_conduct failing_world [godfather; shawshank] [] []
           [EvSearch "The Godfather"; EvPrint "Searching for.. The Godfather";
            EvPrint " - Adding The Godfather to Plex watchlist"; EvAdd plex_godfather]
           (Raise (RemoteError "add refused"))).
  reflexivity.
Defined.

(** X8: the unsynced list keeps the order of the desired list.  When
    [sync_watchlist] returns, its result is the list of desired records that
    are not already present with some of them left out, in the same order. *)
Theorem unsynced_keeps_desired_order (w : World) (desired : list Movie)
    (present : list string) (tr tr' : trace) (unsynced : list Movie) :
  sync_watchlist w desired present tr = (tr', Ok unsynced) ->
  subsequence unsynced (filter (not_present present) desired).
Proof.
  intros Hrun. apply sync_loop_keeps_order in Hrun as (u & -> & Hsub). exact Hsub.
Qed.

Lemma unsynced_keeps_desired_order_witness :
  subsequence [{| title := "Shawshank"; imdb_id := "tt9999999" |}]
    (filter (not_present [])
       [godfather; {| title := "Shawshank"; imdb_id := "tt9999999" |}]).
Proof.
  apply (unsynced_keeps_desired_order sample_world
           [godfather; {| title := "Shawshank"; imdb_id := "tt9999999" |}] [] []
           [EvSearch "The Godfather"; EvPrint "Searching for.. The Godfather";
            EvPrint " - Adding The Godfather to Plex watchlist"; EvAdd plex_godfather;
            EvSearch "Shawshank"; EvPrint "Searching for.. Shawshank";
            EvPrint " - Could not find Shawshank (IMDB ID: tt9999999) in Plex Discover"]).
  reflexivity.
Defined.

(** ** Configuration *)

Lemma print_missing_trace (names : list string) (tr : trace) :
  print_missing names tr
  = (tr ++ map (fun name => EvStderr ("- " ++ name)) names, Ok tt).
Proof.
  revert tr. induction names as [|name names IH]; intros tr.
  - simpl. now rewrite app_nil_r.
  - cbn [print_missing]. rewrite bind_run. unfold eprint at 1.
    rewrite IH, <- app_assoc. reflexivity.
Qed.

Lemma get_environment_variables_cases (w : World) (tr : trace) :
  get_environment_variables w tr =
  match missing_variables w, getenv w "PLEX_TOKEN", getenv w "PLEX_URL",
        getenv w "LETTERBOXD_USERNAME" with
  | [], Some t, Some u, Some n => (tr, Ok (t, u, n))
  | _, _, _, _ =>
      (tr ++ missing_report (missing_variables w), Raise (SystemExit 1))
  end.
Proof.
  unfold get_environment_variables, missing_variables. cbn [filter map fst snd].
  destruct (getenv w "PLEX_TOKEN") as [[|? ?]|];
    destruct (getenv w "PLEX_URL") as [[|? ?]|];
    destruct (getenv w "LETTERBOXD_USERNAME") as [[|? ?]|];
    cbn; try reflexivity;
    unfold raise, missing_report; cbn; rewrite <- ?app_assoc; reflexivity.
Qed.

(** X9: the configuration check passes exactly when the three required
    variables are set and not empty.  It then returns their values and
    writes nothing. *)
Theorem configuration_accepted (w : World) (tr : trace) (t u n : string) :
  getenv w "PLEX_TOKEN" = Some t -> PyStr.truthy t = true ->
  getenv w "PLEX_URL" = Some u -> PyStr.truthy u = true ->
  getenv w "LETTERBOXD_USERNAME" = Some n -> PyStr.truthy n = true ->
  get_environment_variables w tr = (tr, Ok (t, u, n)).
Proof.
  intros Ht Ht' Hu Hu' Hn Hn'. rewrite get_environment_variables_cases.
  unfold missing_variables. cbn [filter]. rewrite Ht, Hu, Hn. cbn [falsy].
  now rewrite Ht', Hu', Hn'.
Qed.

Lemma configuration_accepted_witness :
  get_environment_variables sample_world []
  = ([], Ok ("token", "http://plex.local:32400", "alice")).
Proof.
  apply (configuration_accepted sample_world [] "token" "http://plex.local:32400" "alice");
    reflexivity.
Defined.

(** X10: a required variable that is unset or set to the empty string makes
    the configuration check fatal.  It ends with [SystemExit 1] after writing
    to the error stream, and nowhere else, the heading, one line per missing
    variable (in the order PLEX_TOKEN, PLEX_URL, LETTERBOXD_USERNAME) and the
    closing advice. *)
Theorem configuration_rejected (w : World) (tr : trace) :
  missing_variables w <> [] ->
  get_environment_variables w tr
  = (tr ++ missing_report (missing_variables w), Raise (SystemExit 1)).
Proof.
  intros H. rewrite get_environment_variables_cases.
  destruct (missing_variables w); [congruence|].
  reflexivity.
Qed.

Lemma configuration_rejected_witness :
  get_environment_variables unconfigured_world []
  = ([EvStderr "Error: Missing required environment variables:";
      EvStderr "- PLEX_TOKEN"; EvStderr "- LETTERBOXD_USERNAME";
      EvStderr (newline ++ "Please set these variables in your .env file")],
     Raise (SystemExit 1)).
Proof.
  apply (configuration_rejected unconfigured_world []). discriminate.
Defined.

(** ** Fetching *)

Section FetchExtras.

Variable w : World.

Lemma fetch_attempt_conduct (url : string) (remaining : nat) :
  forall (attempt : nat) (tr tr' : trace) (r : result (list Movie)),
    fetch_attempt w url attempt remaining tr = (tr', r) ->
    exists ext n,
      tr' = tr ++ ext /\
      requested_urls ext = repeat url n /\
      1 <= n <= remaining + 1 /\
      (forall msg, r <> Raise (RequestError msg)) /\
      (forall data, r = Ok data ->
                    exists before,
                      ext = before ++ [EvGet url] /\
                      requests_get_json w (tr ++ before) url = Ok data).
Proof.
  induction remaining as [|remaining IH]; intros attempt tr tr' r Hrun;
    cbn [fetch_attempt] in Hrun;
    destruct (requests_get_json w tr url) as [data|[code|msg| |msg]] eqn:Hreq;
    try (injection Hrun as <- <-; exists [EvGet url], 1;
         repeat split; try (cbn; lia); try discriminate;
         intros data' [= <-]; exists []; rewrite app_nil_r; auto).
  - rewrite bind_run in Hrun. unfold print, raise in Hrun. injection Hrun as <- <-.
    eexists [EvGet url; EvPrint _], 1. rewrite <- app_assoc.
    repeat split; try (cbn; lia); discriminate.
  - rewrite bind_run in Hrun. unfold print at 1 in Hrun.
    apply IH in Hrun as (ext & n & -> & Hurls & Hn & Hesc & Hok).
    eexists (EvGet url :: EvPrint _ :: ext), (S n). rewrite <- !app_assoc.
    split; [reflexivity|].
    split; [unfold requested_urls in *; cbn; now rewrite Hurls|].
    split; [lia|]. split; [exact Hesc|].
    intros data Hdata. destruct (Hok data Hdata) as (before & -> & Hlast).
    eexists (EvGet url :: EvPrint _ :: before). split; [reflexivity|].
    rewrite <- Hlast. f_equal. now rewrite <- !app_assoc.
Qed.

Lemma fetch_attempt_exhausted (url : string) :
  (forall tr, exists msg, requests_get_json w tr url = Raise (RequestError msg)) ->
  forall tr, exists m1 m2 m3,
    fetch_with_retry w url tr
    = (tr ++ [EvGet url;
              EvPrint ("Attempt 1 failed. Retrying... Error: " ++ m1);
              EvGet url;
              EvPrint ("Attempt 2 failed. Retrying... Error: " ++ m2);
              EvGet url;
              EvPrint ("Failed after 3 attempts. Error: " ++ m3)],
       Raise (SystemExit 1)).
Proof.
  intros Hdown tr. unfold fetch_with_retry, max_retries. cbn [Nat.sub fetch_attempt].
  destruct (Hdown tr) as [m1 H1]. rewrite H1. rewrite bind_run. unfold print at 1.
  cbn [fetch_attempt].
  destruct (Hdown ((tr ++ [EvGet url]) ++
                   [EvPrint ("Attempt " ++ str_of_nat (0 + 1)
                             ++ " failed. Retrying... Error: " ++ m1)]))
    as [m2 H2].
  rewrite H2. rewrite bind_run. unfold print at 1. cbn [fetch_attempt].
  match goal with
  | |- context [requests_get_json w ?t url] => destruct (Hdown t) as [m3 H3]; rewrite H3
  end.
  exists m1, m2, m3. rewrite bind_run. unfold print, raise.
  rewrite <- !app_assoc. reflexivity.
Qed.

End FetchExtras.

(** X11: [fetch_with_retry] makes at least one and at most three requests,
    all to the URL it was given; a request error never escapes it (it is
    retried or turned into [SystemExit]); and the data it returns is what the
    last request was answered with. *)
Theorem fetch_with_retry_conduct (w : World) (url : string)
    (tr tr' : trace) (r : result (list Movie)) :
  fetch_with_retry w url tr = (tr', r) ->
  exists ext n,
    tr' = tr ++ ext /\
    requested_urls ext = repeat url n /\
    1 <= n <= 3 /\
    (forall msg, r <> Raise (RequestError msg)) /\
    (forall data, r = Ok data ->
                  exists before,
                    ext = before ++ [EvGet url] /\
                    requests_get_json w (tr ++ before) url = Ok data).
Proof. apply fetch_attempt_conduct. Qed.

Lemma fetch_with_retry_conduct_witness :
  exists ext n,
    [EvGet "u"; EvPrint "Attempt 1 failed. Retrying... Error: connection refused";
     EvGet "u"; EvPrint "Attempt 2 failed. Retrying... Error: connection refused";
     EvGet "u"; EvPrint "Failed after 3 attempts. Error: connection refused"]
    = [] ++ ext /\
    requested_urls ext = repeat "u" n /\
    1 <= n <= 3 /\
    (forall msg, Raise (SystemExit 1) <> @Raise (list Movie) (RequestError msg)) /\
    (forall data, Raise (SystemExit 1) = Ok data ->
                  exists before,
                    ext = before ++ [EvGet "u"] /\
                    requests_get_json offline_world ([] ++ before) "u" = Ok data).
Proof.
  apply (fetch_with_retry_conduct offline_world "u" []). reflexivity.
Defined.

(** X12: when every request to the URL fails with a request error,
    [fetch_with_retry] makes exactly three requests, announces the first two
    failures as attempts 1 and 2, reports the failure after 3 attempts and
    ends with [SystemExit 1]. *)
Theorem fetch_with_retry_gives_up (w : World) (url : string) (tr : trace) :
  (forall tr, exists msg, requests_get_json w tr url = Raise (RequestError msg)) ->
  exists m1 m2 m3,
    fetch_with_retry w url tr
    = (tr ++ [EvGet url;
              EvPrint ("Attempt 1 failed. Retrying... Error: " ++ m1);
              EvGet url;
              EvPrint ("Attempt 2 failed. Retrying... Error: " ++ m2);
              EvGet url;
              EvPrint ("Failed after 3 attempts. Error: " ++ m3)],
       Raise (SystemExit 1)).
Proof. intros H. now apply fetch_attempt_exhausted. Qed.

Lemma fetch_with_retry_gives_up_witness :
  exists m1 m2 m3,
    fetch_with_retry offline_world "u" []
    = ([] ++ [EvGet "u";
              EvPrint ("Attempt 1 failed. Retrying... Error: " ++ m1);
              EvGet "u";
              EvPrint ("Attempt 2 failed. Retrying... Error: " ++ m2);
              EvGet "u";
              EvPrint ("Failed after 3 attempts. Error: " ++ m3)],
       Raise (SystemExit 1)).
Proof.
  apply (fetch_with_retry_gives_up offline_world "u" []).
  intros tr. exists "connection refused". reflexivity.
Defined.




(** ** Orchestrator *)

Lemma report_lines_trace (unsynced : list Movie) (tr : trace) :
  report_lines unsynced tr
  = (tr ++ map (fun movie => EvPrint (report_line movie)) unsynced, Ok tt).
Proof.
  revert tr. induction unsynced as [|movie rest IH]; intros tr.
  - simpl. now rewrite app_nil_r.
  - cbn [report_lines]. rewrite bind_run. unfold print at 1.
    rewrite IH, <- app_assoc. reflexivity.
Qed.

Lemma report_lists_every_unsynced_record_aux (unsynced : list Movie) (tr : trace) :
  report unsynced tr
  = (tr ++ match unsynced with
           | [] => []
           | _ :: _ =>
               EvPrint report_header
               :: map (fun movie => EvPrint (report_line movie)) unsynced
               ++ report_footer
           end,
     Ok tt).
Proof.
  destruct unsynced as [|movie rest]; [simpl; now rewrite app_nil_r|].
  unfold report. rewrite bind_run. unfold print at 1.
  rewrite bind_run, report_lines_trace.
  unfold bind, print, report_footer. rewrite <- !app_assoc. reflexivity.
Qed.

(** X14: the final report.  Nothing is printed when every record was
    synced; otherwise the heading is printed, then one line per unsynced
    record with its title and id, in the order of the list, then the three
    closing lines. *)
Theorem report_lists_every_unsynced_record (unsynced : list Movie) (tr : trace) :
  report unsynced tr
  = (tr ++ match unsynced with
           | [] => []
           | _ :: _ =>
               EvPrint report_header
               :: map (fun movie =>
                         EvPrint ("- " ++ title movie ++ " (IMDB ID: "
                                  ++ imdb_id movie ++ ")")) unsynced
               ++ report_footer
           end,
     Ok tt).
Proof. apply report_lists_every_unsynced_record_aux. Qed.

Section OrchestratorExtras.

Variable w : World.

Lemma sync_loop_convergence_events (movies : list Movie) (present : list string)
    (unsynced : list Movie) :
  emits convergence_event (sync_loop w movies present unsynced).
Proof.
  intros tr tr' r Hrun.
  apply sync_loop_conduct in Hrun as (ext & -> & Hev & _). now exists ext.
Qed.

Lemma report_convergence_events (unsynced : list Movie) :
  emits convergence_event (report unsynced).
Proof.
  intros tr tr' r Hrun. rewrite report_lists_every_unsynced_record_aux in Hrun.
  injection Hrun as <- _. eexists. split; [reflexivity|].
  destruct unsynced; [reflexivity|]. cbn. rewrite forallb_app.
  rewrite andb_true_iff. split; [|reflexivity].
  apply forallb_forall. intros ev Hin. apply in_map_iff in Hin as (mv & <- & _).
  reflexivity.
Qed.

End OrchestratorExtras.

Lemma removed_lists_app (a b : trace) :
  removed_lists (a ++ b) = removed_lists a ++ removed_lists b.
Proof. apply flat_map_app. Qed.

Lemma no_remove_removed_lists (tr : trace) :
  forallb no_remove tr = true -> removed_lists tr = [].
Proof.
  induction tr as [|ev tr IH]; [reflexivity|].
  simpl. intros H. apply andb_prop in H as [Hev H].
  destruct ev; try discriminate; now apply IH.
Qed.

Lemma convergence_events_no_remove (tr : trace) :
  forallb convergence_event tr = true -> forallb no_remove tr = true.
Proof.
  rewrite !forallb_forall. intros H ev Hin. specialize (H ev Hin).
  now destruct ev.
Qed.

Section MainExtras.

Variable w : World.

Lemma main_converge_events (desired : list Movie) (b : buckets) :
  emits convergence_event (main_converge w desired b).
Proof.
  unfold main_converge, sync_watchlist. apply emits_bind.
  - apply sync_loop_convergence_events.
  - intros unsynced. apply report_convergence_events.
Qed.

Lemma main_phases (workers as_completed : schedule) (tr : trace) (r : result unit) :
  main w workers as_completed [] = (tr, r) ->
  exists before after,
    tr = before ++ after /\
    forallb (fun ev => negb (is_convergence_call ev)) before = true /\
    forallb convergence_event after = true /\
    (removed_lists tr = [] \/
     exists items, items <> [] /\ removed_lists tr = [items]).
Proof.
  intros Hrun. rewrite main_halves in Hrun.
  destruct (main_prelude w workers as_completed []) as [tr1 [[desired b]|e0]] eqn:E;
    apply main_prelude_quiet in E as (pre & -> & Hq); simpl app in *.
  - destruct (movies_to_remove b) as [|item items0].
    + apply main_converge_events in Hrun as (ext & -> & Hext).
      exists pre, ext. repeat split; [now apply quiet_no_convergence | assumption |].
      left. rewrite removed_lists_app.
      rewrite (no_remove_removed_lists pre) by now apply quiet_no_remove.
      now rewrite (no_remove_removed_lists ext) by now apply convergence_events_no_remove.
    + destruct (removeFromWatchlist w (pre ++ [EvPrint clear_line]) (item :: items0))
        as [[]|e0].
      * apply main_converge_events in Hrun as (ext & -> & Hext).
        exists (pre ++ [EvPrint clear_line; EvRemove (item :: items0);
                        EvPrint done_clear_line]), ext.
        repeat split; [|assumption|].
        -- now rewrite forallb_app, (quiet_no_convergence _ Hq).
        -- right. exists (item :: items0). split; [discriminate|].
           rewrite !removed_lists_app.
           rewrite (no_remove_removed_lists pre) by now apply quiet_no_remove.
           now rewrite (no_remove_removed_lists ext)
             by now apply convergence_events_no_remove.
      * injection Hrun as <- _.
        exists (pre ++ [EvPrint clear_line; EvRemove (item :: items0)]), [].
        rewrite app_nil_r. repeat split.
        -- now rewrite forallb_app, (quiet_no_convergence _ Hq).
        -- right. exists (item :: items0). split; [discriminate|].
           rewrite removed_lists_app.
           now rewrite (no_remove_removed_lists pre) by now apply quiet_no_remove.
  - injection Hrun as <- _. exists pre, []. rewrite app_nil_r.
    repeat split; [now apply quiet_no_convergence|].
    left. apply no_remove_removed_lists. now apply quiet_no_remove.
Qed.

Lemma main_unconfigured (workers as_completed : schedule) (tr : trace) :
  missing_variables w <> [] ->
  main w workers as_completed tr
  = (tr ++ missing_report (missing_variables w), Raise (SystemExit 1)).
Proof.
  intros H. unfold main. rewrite bind_run, get_environment_variables_cases.
  destruct (missing_variables w); [congruence | reflexivity].
Qed.

Lemma get_letterboxd_data_offline (username : string) (tr : trace) :
  (forall tr url, exists msg, requests_get_json w tr url = Raise (RequestError msg)) ->
  exists tr', get_letterboxd_data w username tr = (tr', Raise (SystemExit 1)).
Proof.
  intros Hdown. unfold get_letterboxd_data.
  rewrite bind_run. unfold print at 1. rewrite bind_run. unfold print at 1.
  rewrite bind_run.
  match goal with
  | |- context [fetch_with_retry w ?url ?t] =>
      destruct (fetch_attempt_exhausted w url (fun tr => Hdown tr url) t)
        as (m1 & m2 & m3 & ->)
  end.
  now eexists.
Qed.

Lemma main_prelude_offline (workers as_completed : schedule) (tr : trace) :
  (forall tr url, exists msg, requests_get_json w tr url = Raise (RequestError msg)) ->
  exists tr' e, main_prelude w workers as_completed tr = (tr', Raise e).
Proof.
  intros Hdown. unfold main_prelude. rewrite bind_run.
  destruct (get_environment_variables w tr) as [t1 [[[plex_token plex_url] username]|e]];
    [|now eexists _, _].
  rewrite bind_run.
  destruct (call (EvAccount plex_token) _ t1) as [t2 [[]|e]]; [|now eexists _, _].
  rewrite bind_run.
  destruct (call EvWatchlist (watchlist w) t2) as [t3 [current|e]]; [|now eexists _, _].
  rewrite bind_run. unfold print at 1. rewrite bind_run.
  match goal with
  | |- context [get_letterboxd_data w username ?t] =>
      destruct (get_letterboxd_data_offline username t Hdown) as [t5 ->]
  end.
  now eexists _, _.
Qed.

End MainExtras.

(** X15: a missing or empty required variable ends [main] before any remote
    call.  The run consists of the lines written to the error stream and
    ends with [SystemExit 1]: no account is opened, nothing is fetched,
    removed, searched or added. *)
Theorem main_stops_on_missing_configuration (w : World)
    (workers as_completed : schedule) :
  missing_variables w <> [] ->
  main w workers as_completed []
  = (missing_report (missing_variables w), Raise (SystemExit 1)).
Proof. intros H. now apply main_unconfigured. Qed.

Lemma main_stops_on_missing_configuration_witness :
  main unconfigured_world submission_order submission_order []
  = ([EvStderr "Error: Missing required environment variables:";
      EvStderr "- PLEX_TOKEN"; EvStderr "- LETTERBOXD_USERNAME";
      EvStderr (newline ++ "Please set these variables in your .env file")],
     Raise (SystemExit 1)).
Proof.
  apply (main_stops_on_missing_configuration unconfigured_world
           submission_order submission_order).
  discriminate.
Defined.

(** X16: the phases of a run are in order.  Every run of [main] is a first
    part without any search or add, followed by a part made of searches,
    adds and printed lines only: once convergence has begun nothing is
    fetched or removed.  The whole run holds at most one bulk remove, and
    never one of an empty list. *)
Theorem main_phases_in_order (w : World) (workers as_completed : schedule)
    (tr : trace) (r : result unit) :
  main w workers as_completed [] = (tr, r) ->
  exists before after,
    tr = before ++ after /\
    forallb (fun ev => negb (is_convergence_call ev)) before = true /\
    forallb convergence_event after = true /\
    (removed_lists tr = [] \/
     exists items, items <> [] /\ removed_lists tr = [items]).
Proof. apply main_phases. Qed.

Lemma main_phases_in_order_witness :
  exists before after,
    fst (main sample_world submission_order submission_order []) = before ++ after /\
    forallb (fun ev => negb (is_convergence_call ev)) before = true /\
    forallb convergence_event after = true /\
    (removed_lists (fst (main sample_world submission_order submission_order [])) = [] \/
     exists items, items <> [] /\
                   removed_lists (fst (main sample_world submission_order submission_order [])) = [items]).
Proof.
  apply (main_phases_in_order sample_world submission_order submission_order
           (fst (main sample_world submission_order submission_order []))
           (snd (main sample_world submission_order submission_order []))).
  reflexivity.
Defined.

(** X17: when the list service cannot be reached the run is fatal and
    changes nothing.  If every request fails with a request error, [main]
    ends with an exception and its run holds no bulk remove, no search, no
    add and no line of the final report. *)
Theorem main_stops_when_lists_cannot_be_fetched (w : World)
    (workers as_completed : schedule) (tr : trace) (r : result unit) :
  (forall tr url, exists msg, requests_get_json w tr url = Raise (RequestError msg)) ->
  main w workers as_completed [] = (tr, r) ->
  forallb quiet tr = true /\ exists e, r = Raise e.
Proof.
  intros Hdown Hrun. rewrite main_halves in Hrun.
  destruct (main_prelude_offline w workers as_completed [] Hdown) as (tr1 & e & E).
  rewrite E in Hrun. injection Hrun as <- <-.
  apply main_prelude_quiet in E as (pre & -> & Hq).
  split; [exact Hq | now exists e].
Qed.

Lemma main_stops_when_lists_cannot_be_fetched_witness :
  forallb quiet (fst (main offline_world submission_order submission_order [])) = true /\
  exists e, snd (main offline_world submission_order submission_order []) = Raise e.
Proof.
  apply (main_stops_when_lists_cannot_be_fetched offline_world
           submission_order submission_order).
  - intros tr url. exists "connection refused". reflexivity.
  - reflexivity.
Defined.

Section CompletedRuns.

Variable w : World.

Lemma get_environment_variables_configured (tr : trace) :
  missing_variables w = [] ->
  exists t u n, get_environment_variables w tr = (tr, Ok (t, u, n)).
Proof.
  rewrite get_environment_variables_cases. unfold missing_variables. cbn [filter].
  destruct (getenv w "PLEX_TOKEN") as [[|? ?]|];
    destruct (getenv w "PLEX_URL") as [[|? ?]|];
    destruct (getenv w "LETTERBOXD_USERNAME") as [[|? ?]|];
    cbn; try discriminate.
  intros _. now eexists _, _, _.
Qed.

Lemma fetch_with_retry_answered (url : string) (tr : trace) :
  (forall tr url, exists data, requests_get_json w tr url = Ok data) ->
  exists data, fetch_with_retry w url tr = (tr ++ [EvGet url], Ok data).
Proof.
  intros Hup. unfold fetch_with_retry, max_retries. cbn [Nat.sub fetch_attempt].
  destruct (Hup tr url) as [data ->]. now exists data.
Qed.

Lemma main_prelude_returns (workers as_completed : schedule) (tr : trace) :
  missing_variables w = [] ->
  (forall tr token, MyPlexAccount w tr token = Ok tt) ->
  (forall tr, exists items, watchlist w tr = Ok items) ->
  (forall tr url, exists data, requests_get_json w tr url = Ok data) ->
  exists tr' desired b, main_prelude w workers as_completed tr = (tr', Ok (desired, b)).
Proof.
  intros Hconf Hacc Hwl Hup. unfold main_prelude. rewrite bind_run.
  destruct (get_environment_variables_configured tr Hconf) as (t & u & n & ->).
  rewrite bind_run. unfold call at 1. rewrite Hacc.
  rewrite bind_run. unfold call at 1.
  match goal with
  | |- context [watchlist w ?t] => destruct (Hwl t) as [items ->]
  end.
  rewrite bind_run. unfold print at 1. rewrite bind_run.
  unfold get_letterboxd_data at 1.
  rewrite bind_run. unfold print at 1. rewrite bind_run. unfold print at 1.
  rewrite bind_run.
  match goal with
  | |- context [fetch_with_retry w ?url ?t] =>
      destruct (fetch_with_retry_answered url t Hup) as [desired ->]
  end.
  rewrite bind_run.
  match goal with
  | |- context [fetch_with_retry w ?url ?t] =>
      destruct (fetch_with_retry_answered url t Hup) as [watched ->]
  end.
  rewrite bind_run. unfold print at 1, ret at 1.
  rewrite bind_run. unfold print at 1. rewrite bind_run.
  rewrite scheduler_value. unfold ret. now eexists _, _, _.
Qed.

Lemma main_converge_returns (desired : list Movie) (b : buckets) (tr : trace) :
  (forall tr query, exists cands, searchDiscover w tr query = Ok cands) ->
  (forall tr c, addToWatchlist w tr c = Ok tt) ->
  exists tr', main_converge w desired b tr = (tr', Ok tt).
Proof.
  intros Hsearch Hadd. unfold main_converge, sync_watchlist. rewrite bind_run.
  destruct (sync_loop_returns w desired (already_present b) Hsearch Hadd [] tr)
    as (tr1 & unsynced & ->).
  rewrite report_lists_every_unsynced_record_aux. now eexists.
Qed.

End CompletedRuns.

(** X18: an item whose extracted id, the id the classifier settles on, is
    in the desired list and not in the watched list is classified [Present]
    with that id. *)
Theorem desired_and_unwatched_is_present (item : Item) (desired watched : list Movie)
    (id : string) (tr : trace) :
  deciding_id desired watched (guids item) = Some id ->
  id_listed id desired = true ->
  id_listed id watched = false ->
  process_single_watchlist_item item desired watched tr = (tr, Ok (Present id)).
Proof.
  intros Hd _ Hw. unfold process_single_watchlist_item.
  rewrite (scan_item_guids_deciding _ item _ _ id tr Hd). now rewrite Hw.
Qed.

Lemma desired_and_unwatched_is_present_witness :
  process_single_watchlist_item plex_godfather [godfather] [shawshank] []
  = ([], Ok (Present "tt0068646")).
Proof.
  apply (desired_and_unwatched_is_present plex_godfather [godfather] [shawshank]
           "tt0068646" []); reflexivity.
Defined.

(** X19: a run in which nothing fails completes.  When the configuration is
    complete and no call to the media server or to the list service raises,
    [main] returns normally for every completion order, whether or not some
    records stay unsynced. *)
Theorem main_completes_when_nothing_fails (w : World)
    (workers as_completed : schedule) :
  missing_variables w = [] ->
  (forall tr token, MyPlexAccount w tr token = Ok tt) ->
  (forall tr, exists items, watchlist w tr = Ok items) ->
  (forall tr url, exists data, requests_get_json w tr url = Ok data) ->
  (forall tr items, removeFromWatchlist w tr items = Ok tt) ->
  (forall tr query, exists cands, searchDiscover w tr query = Ok cands) ->
  (forall tr c, addToWatchlist w tr c = Ok tt) ->
  exists tr, main w workers as_completed [] = (tr, Ok tt).
Proof.
  intros Hconf Hacc Hwl Hup Hrm Hsearch Hadd. rewrite main_halves.
  destruct (main_prelude_returns w workers as_completed [] Hconf Hacc Hwl Hup)
    as (tr1 & desired & b & ->).
  destruct (movies_to_remove b).
  - now apply main_converge_returns.
  - rewrite Hrm. now apply main_converge_returns.
Qed.

Lemma main_completes_when_nothing_fails_witness :
  exists tr, main sample_world submission_order submission_order [] = (tr, Ok tt).
Proof.
  apply (main_completes_when_nothing_fails sample_world
           submission_order submission_order).
  - reflexivity.
  - reflexivity.
  - intros tr. now eexists.
  - intros tr url. unfold sample_world. cbn [requests_get_json].
    destruct (String.eqb url _); now eexists.
  - reflexivity.
  - intros tr query. unfold sample_world. cbn [searchDiscover].
    destruct (String.eqb query "Shawshank"); [now eexists|].
    destruct (String.eqb query "The Godfather"); now eexists.
  - reflexivity.
Defined.
